(** * Signal engine: technical indicators and composite scoring

    A shallow embedding of [src/lib/services/signal-engine.ts] and the
    properties its specification states about it.

    Number model.  A JavaScript [number] is modelled as an exact rational
    ([Q]): arithmetic is the arithmetic of the reals the specification speaks
    of, without binary rounding, overflow, [NaN] or infinities.  Values are
    compared with [==] ([Qeq]), since a rational has many representations.
    Where the source can divide by zero or read the extremum of an empty
    array, the embedding says so explicitly (an [option], or a comparison
    that spells out the sign of the infinity). *)

From Stdlib Require Import Ascii String ZArith QArith Qround Qminmax Qabs.
From Stdlib Require Import List Bool Lia Lqa.
Import ListNotations.

Open Scope Q_scope.

(** ** JavaScript primitives used by the engine *)

Module Js.

(** [x <= y], [x < y], [x >= y], [x > y] and [x === y] on numbers. *)
Definition leb (x y : Q) : bool := Qle_bool x y.
Definition ltb (x y : Q) : bool := negb (Qle_bool y x).
Definition geb (x y : Q) : bool := leb y x.
Definition gtb (x y : Q) : bool := ltb y x.
Definition eqb (x y : Q) : bool := Qeq_bool x y.

(** Truthiness of a [number | null]: [null] and [0] are falsy. *)
Definition truthy (v : option Q) : bool :=
  match v with
  | None => false
  | Some x => negb (eqb x 0)
  end.

(** [Math.max(...l)] and [Math.min(...l)].  On the empty array JavaScript
    answers [-Infinity] and [Infinity], which [Q] does not have: [None]. *)
Definition max_of (l : list Q) : option Q :=
  match l with
  | [] => None
  | x :: t => Some (fold_left Qmax t x)
  end.

Definition min_of (l : list Q) : option Q :=
  match l with
  | [] => None
  | x :: t => Some (fold_left Qmin t x)
  end.

(** [l.slice(start)]: a negative [start] counts from the end, and both
    directions saturate at the ends of the array. *)
Definition slice {A : Type} (l : list A) (start : Z) : list A :=
  let n := Z.of_nat (length l) in
  let k := if (start <? 0)%Z then Z.max (n + start) 0 else Z.min start n in
  skipn (Z.to_nat k) l.

(** [Math.round]: the nearest integer, halves going up. *)
Definition round (x : Q) : Q := inject_Z (Qfloor (x + (1 # 2))).

Definition abs (x : Q) : Q := Qabs x.

(** [l[i]]; every read the engine makes is guarded to be in range, the
    default stands for [undefined]. *)
Definition get (l : list Q) (i : nat) : Q := nth i l 0.

(** [l[l.length - 1]]. *)
Definition last_of (l : list Q) : Q := get l (length l - 1).

(** [n / d <= c] where [d] may be zero: JavaScript then yields [-Infinity]
    (for [n < 0]), [Infinity] or [NaN], and only the first is [<= c]. *)
Definition quot_leb (n d c : Q) : bool :=
  if eqb d 0 then ltb n 0 else leb (n / d) c.

End Js.

(** ** Data model ([src/types/index.ts]) *)

Record FibLevels : Type := mkFibLevels {
  high : Q;
  low : Q;
  level_236 : Q;
  level_382 : Q;
  level_500 : Q;
  level_618 : Q;
  level_786 : Q
}.

Inductive SignalLabel : Type :=
| strong_buy
| buy
| neutral
| sell
| strong_sell.

Record SignalResult : Type := mkSignalResult {
  ticker : string;
  date : string;
  rsi_14 : Q;
  ema_9 : Q;
  ema_21 : Q;
  ema_50 : Q;
  ema_200 : Q;
  macd_line : Q;
  macd_signal : Q;
  macd_histogram : Q;
  fib_levels : FibLevels;
  signal_score : Q;
  signal_label : SignalLabel;
  nearest_fib_support : option Q;
  nearest_fib_resistance : option Q
}.

(** ** Fibonacci retracement *)

(** [calculateFibLevels(prices, lookback = 60)]. *)
Definition calculateFibLevels (prices : list Q) (lookback : Z) : option FibLevels :=
  let window := Js.slice prices (- lookback) in
  match Js.max_of window, Js.min_of window with
  | Some high, Some low =>
      let range := high - low in
      Some {| high := high;
              low := low;
              level_236 := high - range * 0.236;
              level_382 := high - range * 0.382;
              level_500 := high - range * 0.5;
              level_618 := high - range * 0.618;
              level_786 := high - range * 0.786 |}
  | _, _ => None
  end.

(** The array [levels] of [findNearestFibLevels], in the order it is walked. *)
Definition fibCandidates (fib : FibLevels) : list Q :=
  [low fib; level_786 fib; level_618 fib; level_500 fib;
   level_382 fib; level_236 fib; high fib].

Record Nearest : Type := mkNearest {
  support : option Q;
  resistance : option Q
}.

(** One turn of the [for (const level of levels)] loop.  The tests
    [!support] and [!resistance] are truthiness tests. *)
Definition nearestStep (currentPrice : Q) (acc : Nearest) (level : Q) : Nearest :=
  let support1 :=
    if Js.leb level currentPrice then
      if negb (Js.truthy (support acc))
         || match support acc with Some s => Js.gtb level s | None => false end
      then Some level else support acc
    else support acc in
  let resistance1 :=
    if Js.geb level currentPrice then
      if negb (Js.truthy (resistance acc))
         || match resistance acc with Some r => Js.ltb level r | None => false end
      then Some level else resistance acc
    else resistance acc in
  {| support := support1; resistance := resistance1 |}.

Definition findNearestFibLevels (currentPrice : Q) (fib : FibLevels) : Nearest :=
  fold_left (nearestStep currentPrice) (fibCandidates fib)
            {| support := None; resistance := None |}.

(** [scoreFibPosition]. *)
Definition scoreFibPosition (price : Q) (fib : FibLevels) : Q :=
  let range := high fib - low fib in
  if Js.eqb range 0 then 0 else
  let position := (price - low fib) / range in
  if Js.geb position 0.6 && Js.leb position 0.65 then 20 else
  if Js.geb position 0.75 && Js.leb position 0.8 then 15 else
  if Js.geb position 0.35 && Js.leb position 0.4 then 10 else
  if Js.gtb position 1 then 25 else
  if Js.ltb position 0 then -25 else
  if Js.gtb position 0.764 then 5 else
  if Js.ltb position 0.3 then -15 else
  0.

(** ** RSI *)

(** [prices[i] - prices[i - 1]]. *)
Definition priceChange (prices : list Q) (i : nat) : Q :=
  Js.get prices i - Js.get prices (i - 1).

(** Body of the first loop of [calculateRSI], on the pair [(gains, losses)]. *)
Definition rsiInitStep (prices : list Q) (acc : Q * Q) (i : nat) : Q * Q :=
  let change := priceChange prices i in
  if Js.gtb change 0 then (fst acc + change, snd acc)
  else (fst acc, snd acc + Js.abs change).

(** Body of the second loop (Wilder's smoothing), on [(avgGain, avgLoss)]. *)
Definition rsiSmoothStep (prices : list Q) (period : Q) (acc : Q * Q) (i : nat) : Q * Q :=
  let change := priceChange prices i in
  ((fst acc * (period - 1) + (if Js.gtb change 0 then change else 0)) / period,
   (snd acc * (period - 1) + (if Js.ltb change 0 then Js.abs change else 0)) / period).

(** The pair [(avgGain, avgLoss)] after [steps] turns of the second loop,
    which starts at [i = period + 1]; the first loop runs [i] over
    [1 .. period]. *)
Definition rsiSmoothed (prices : list Q) (period : nat) (steps : nat) : Q * Q :=
  let p := inject_Z (Z.of_nat period) in
  let sums := fold_left (rsiInitStep prices) (seq 1 period) (0, 0) in
  fold_left (rsiSmoothStep prices p) (seq (period + 1) steps)
            (fst sums / p, snd sums / p).

(** The pair when the second loop is left at [i = prices.length]. *)
Definition rsiAverages (prices : list Q) (period : nat) : Q * Q :=
  rsiSmoothed prices period (length prices - (period + 1)).

(** [calculateRSI(prices, period = 14)]. *)
Definition calculateRSI (prices : list Q) (period : nat) : Q :=
  if (length prices <? period + 1)%nat then 50 else
  let avg := rsiAverages prices period in
  let avgGain := fst avg in
  let avgLoss := snd avg in
  if Js.eqb avgLoss 0 then 100 else
  let rs := avgGain / avgLoss in
  100 - 100 / (1 + rs).

(** [scoreRSI]. *)
Definition scoreRSI (rsi : Q) : Q :=
  if Js.leb rsi 30 then 20 else
  if Js.leb rsi 40 then 10 else
  if Js.geb rsi 70 then -20 else
  if Js.geb rsi 60 then -10 else
  0.

(** ** EMA *)

(** Body of the second loop of [calculateEMA]: push the next value. *)
Definition emaStep (prices : list Q) (multiplier : Q) (emaValues : list Q) (i : nat) : list Q :=
  let ema := (Js.get prices i - Js.last_of emaValues) * multiplier + Js.last_of emaValues in
  emaValues ++ [ema].

(** [calculateEMA(prices, period)]. *)
Definition calculateEMA (prices : list Q) (period : nat) : list Q :=
  if (length prices <? period)%nat then [] else
  let p := inject_Z (Z.of_nat period) in
  let multiplier := 2 / (p + 1) in
  let sum := fold_left (fun sum i => sum + Js.get prices i) (seq 0 period) 0 in
  fold_left (emaStep prices multiplier)
            (seq period (length prices - period))
            [sum / p].

(** [getLatestEMA]. *)
Definition getLatestEMA (prices : list Q) (period : nat) : Q :=
  let ema := calculateEMA prices period in
  if (0 <? length ema)%nat then Js.last_of ema else Js.last_of prices.

(** [scoreEMAAlignment]. *)
Definition scoreEMAAlignment (price ema9 ema21 ema50 ema200 : Q) : Q :=
  let score := 0 in
  let score := if Js.gtb price ema9 then score + 5 else score in
  let score := if Js.gtb price ema21 then score + 4 else score in
  let score := if Js.gtb price ema50 then score + 4 else score in
  let score := if Js.gtb price ema200 then score + 3 else score in
  let score :=
    if Js.gtb ema9 ema21 && Js.gtb ema21 ema50 && Js.gtb ema50 ema200
    then score + 4 else score in
  let score :=
    if Js.ltb ema9 ema21 && Js.ltb ema21 ema50 && Js.ltb ema50 ema200
    then score - 4 else score in
  let score := if Js.ltb price ema9 then score - 5 else score in
  let score := if Js.ltb price ema21 then score - 4 else score in
  let score := if Js.ltb price ema50 then score - 4 else score in
  let score := if Js.ltb price ema200 then score - 3 else score in
  Qmax (-20) (Qmin 20 score).

(** ** Support / resistance proximity *)

(** [scoreSRProximity]; [if (fibSupport)] is a truthiness test. *)
Definition scoreSRProximity (price : Q) (fibSupport fibResistance : option Q) : Q :=
  if negb (Js.truthy fibSupport) && negb (Js.truthy fibResistance) then 0 else
  let score := 0 in
  let score :=
    match fibSupport with
    | Some s =>
        if Js.truthy fibSupport then
          if Js.quot_leb (price - s) price 0.02 then score + 12
          else if Js.quot_leb (price - s) price 0.05 then score + 6
          else score
        else score
    | None => score
    end in
  let score :=
    match fibResistance with
    | Some r =>
        if Js.truthy fibResistance then
          if Js.quot_leb (r - price) price 0.02 then score - 12
          else if Js.quot_leb (r - price) price 0.05 then score - 6
          else score
        else score
    | None => score
    end in
  Qmax (-15) (Qmin 15 score).

(** ** MACD *)

Record Macd : Type := mkMacd {
  macdLine : Q;
  signalLine : Q;
  histogram : Q
}.

(** [calculateMACD].  Both averages being non-empty, [ema12] is the longer
    one, so [offset] is a natural number. *)
Definition calculateMACD (prices : list Q) : Macd :=
  let ema12 := calculateEMA prices 12 in
  let ema26 := calculateEMA prices 26 in
  if (length ema12 =? 0)%nat || (length ema26 =? 0)%nat then
    {| macdLine := 0; signalLine := 0; histogram := 0 |}
  else
    let offset := (length ema12 - length ema26)%nat in
    let macdValues :=
      fold_left (fun macdValues i =>
                   macdValues ++ [Js.get ema12 (i + offset) - Js.get ema26 i])
                (seq 0 (length ema26)) [] in
    let signalEMA := calculateEMA macdValues 9 in
    let macdLine := Js.last_of macdValues in
    let signalLine := if (0 <? length signalEMA)%nat then Js.last_of signalEMA else 0 in
    {| macdLine := macdLine;
       signalLine := signalLine;
       histogram := macdLine - signalLine |}.

(** [scoreMACDMomentum]. *)
Definition scoreMACDMomentum (macdLine signalLine histogram : Q) : Q :=
  let score := 0 in
  let score := if Js.gtb macdLine signalLine then score + 7 else score - 7 in
  let score := if Js.gtb histogram 0 then score + 5 else score - 5 in
  let score :=
    if Js.gtb macdLine 0 && Js.gtb signalLine 0 then score + 3
    else if Js.ltb macdLine 0 && Js.ltb signalLine 0 then score - 3
    else score in
  Qmax (-15) (Qmin 15 score).

(** ** Composite score *)

(** [labelFromScore]. *)
Definition labelFromScore (score : Q) : SignalLabel :=
  if Js.geb score 50 then strong_buy else
  if Js.geb score 20 then buy else
  if Js.leb score (-50) then strong_sell else
  if Js.leb score (-20) then sell else
  neutral.

(** The indicators [generateSignals] computes first (source lines 263-273). *)
Record Indicators : Type := mkIndicators {
  i_currentPrice : Q;
  i_fib : FibLevels;
  i_nearest : Nearest;
  i_rsi : Q;
  i_ema9 : Q;
  i_ema21 : Q;
  i_ema50 : Q;
  i_ema200 : Q;
  i_macd : Macd
}.

(** An empty series has no current price and no window extremum: [None]. *)
Definition computeIndicators (closePrices : list Q) : option Indicators :=
  match closePrices with
  | [] => None
  | _ :: _ =>
      let currentPrice := Js.last_of closePrices in
      match calculateFibLevels closePrices 60 with
      | None => None
      | Some fib =>
          Some {| i_currentPrice := currentPrice;
                  i_fib := fib;
                  i_nearest := findNearestFibLevels currentPrice fib;
                  i_rsi := calculateRSI closePrices 14;
                  i_ema9 := getLatestEMA closePrices 9;
                  i_ema21 := getLatestEMA closePrices 21;
                  i_ema50 := getLatestEMA closePrices 50;
                  i_ema200 := getLatestEMA closePrices 200;
                  i_macd := calculateMACD closePrices |}
      end
  end.

(** The five sub-scores (source lines 276-280). *)
Record SubScores : Type := mkSubScores {
  fibScore : Q;
  rsiScore : Q;
  emaScore : Q;
  srScore : Q;
  macdScore : Q
}.

Definition computeScores (ind : Indicators) : SubScores :=
  {| fibScore := scoreFibPosition (i_currentPrice ind) (i_fib ind);
     rsiScore := scoreRSI (i_rsi ind);
     emaScore := scoreEMAAlignment (i_currentPrice ind) (i_ema9 ind) (i_ema21 ind)
                                   (i_ema50 ind) (i_ema200 ind);
     srScore := scoreSRProximity (i_currentPrice ind)
                                 (support (i_nearest ind)) (resistance (i_nearest ind));
     macdScore := scoreMACDMomentum (macdLine (i_macd ind)) (signalLine (i_macd ind))
                                    (histogram (i_macd ind)) |}.

Definition totalScore (s : SubScores) : Q :=
  fibScore s + rsiScore s + emaScore s + srScore s + macdScore s.

Definition clampScore (total : Q) : Q := Qmax (-100) (Qmin 100 total).

(** [Math.round(x * 100) / 100] and [Math.round(x * 10000) / 10000]. *)
Definition round2 (x : Q) : Q := Js.round (x * 100) / 100.
Definition round4 (x : Q) : Q := Js.round (x * 10000) / 10000.

(** [generateSignals(ticker, closePrices, date)]. *)
Definition generateSignals (ticker : string) (closePrices : list Q) (date : string)
  : option SignalResult :=
  match computeIndicators closePrices with
  | None => None
  | Some ind =>
      let clampedScore := clampScore (totalScore (computeScores ind)) in
      Some {| ticker := ticker;
              date := date;
              rsi_14 := round2 (i_rsi ind);
              ema_9 := round2 (i_ema9 ind);
              ema_21 := round2 (i_ema21 ind);
              ema_50 := round2 (i_ema50 ind);
              ema_200 := round2 (i_ema200 ind);
              macd_line := round4 (macdLine (i_macd ind));
              macd_signal := round4 (signalLine (i_macd ind));
              macd_histogram := round4 (histogram (i_macd ind));
              fib_levels := i_fib ind;
              signal_score := clampedScore;
              signal_label := labelFromScore clampedScore;
              nearest_fib_support := support (i_nearest ind);
              nearest_fib_resistance := resistance (i_nearest ind) |}
  end.


(** ** Vocabulary of the specification *)

(** A number that is an integer. *)
Definition isInt (q : Q) : Prop := exists z : Z, q == inject_Z z.

(** What the specification asks of the locator: the support is the greatest
    candidate at or below the price, the resistance the least candidate at or
    above it, and [null] means that no candidate qualifies. *)
Definition isSupportOf (price : Q) (levels : list Q) (r : option Q) : Prop :=
  match r with
  | None => forall l, In l levels -> ~ l <= price
  | Some s => In s levels /\ s <= price /\
              forall l, In l levels -> l <= price -> l <= s
  end.

Definition isResistanceOf (price : Q) (levels : list Q) (r : option Q) : Prop :=
  match r with
  | None => forall l, In l levels -> ~ price <= l
  | Some s => In s levels /\ price <= s /\
              forall l, In l levels -> price <= l -> s <= l
  end.

(** Both running quantities of the RSI loops are non-negative. *)
Definition bothNonneg (acc : Q * Q) : Prop := 0 <= fst acc /\ 0 <= snd acc.

(** The arithmetic mean of a sequence, as the specification words it. *)
Definition sumOf (l : list Q) : Q := fold_right Qplus 0 l.
Definition mean (l : list Q) : Q := sumOf l / inject_Z (Z.of_nat (length l)).

(** [x] has at most [places] decimal places. *)
Definition hasDecimals (places : nat) (x : Q) : Prop :=
  exists k : Z, x == inject_Z k / inject_Z (10 ^ Z.of_nat places).

(** [y] is [x] rounded to [places] decimal places (halves going up). *)
Definition roundedTo (places : nat) (x y : Q) : Prop :=
  hasDecimals places y /\
  x - 1 / (2 * inject_Z (10 ^ Z.of_nat places)) < y
    <= x + 1 / (2 * inject_Z (10 ^ Z.of_nat places)).

(** The array [emaValues] after [m] turns of the second loop of
    [calculateEMA], started at index [a] on the array [acc]. *)
Definition emaRun (prices : list Q) (multiplier : Q) (a m : nat) (acc : list Q) : list Q :=
  fold_left (emaStep prices multiplier) (seq a m) acc.

(** The position of a label on the scale from strong_sell up to strong_buy. *)
Definition labelRank (l : SignalLabel) : Z :=
  match l with
  | strong_sell => 0
  | sell => 1
  | neutral => 2
  | buy => 3
  | strong_buy => 4
  end.

(** What holds of a value the locator reports: it is one of the candidates
    and lies on the right side of the price. *)
Definition atOrBelow (price : Q) (levels : list Q) (r : option Q) : Prop :=
  match r with
  | None => True
  | Some s => In s levels /\ s <= price
  end.

Definition atOrAbove (price : Q) (levels : list Q) (r : option Q) : Prop :=
  match r with
  | None => True
  | Some s => In s levels /\ price <= s
  end.


(** ** Price service (the exported pure helpers) *)

Module PriceService.

(** [PriceData] of [src/types/index.ts]. *)
Record PriceData : Type := mkPriceData {
  ticker : string;
  date : string;
  open : Q;
  high : Q;
  low : Q;
  close : Q;
  volume : Q
}.

(** [getLatestClose]: [null] on the empty array, else the close of the last
    element (the read is in range after the guard). *)
Definition getLatestClose (prices : list PriceData) : option Q :=
  if (length prices =? 0)%nat then None
  else option_map close (nth_error prices (length prices - 1)).

(** [extractClosePrices]. *)
Definition extractClosePrices (prices : list PriceData) : list Q :=
  map close prices.

End PriceService.

(** ** CSV import: detection of the brokerage format *)

Module CsvImport.

(** A string is a sequence of code units below 256; on those,
    [toLowerCase] moves [A-Z] and the accented capitals of Latin-1 (all of
    [0xC0 .. 0xDE] but the multiplication sign) 32 places up, and the white
    space that [trim] removes is tab, line feed, vertical tab, form feed,
    carriage return, space and the no-break space. *)
Definition lowerChar (c : ascii) : ascii :=
  let n := nat_of_ascii c in
  if ((65 <=? n) && (n <=? 90))%nat
     || ((192 <=? n) && (n <=? 222) && negb (n =? 215))%nat
  then ascii_of_nat (n + 32) else c.

Fixpoint toLowerCase (s : string) : string :=
  match s with
  | EmptyString => EmptyString
  | String c r => String (lowerChar c) (toLowerCase r)
  end.

Definition isSpace (c : ascii) : bool :=
  let n := nat_of_ascii c in
  ((9 <=? n) && (n <=? 13))%nat || (n =? 32)%nat || (n =? 160)%nat.

Fixpoint trimStart (s : string) : string :=
  match s with
  | EmptyString => EmptyString
  | String c r => if isSpace c then trimStart r else s
  end.

Definition reverse (s : string) : string :=
  string_of_list_ascii (rev (list_ascii_of_string s)).

Definition trimEnd (s : string) : string := reverse (trimStart (reverse s)).

Definition trim (s : string) : string := trimEnd (trimStart s).

(** [l.includes(x)] on an array of strings. *)
Definition includes (l : list string) (x : string) : bool :=
  existsb (String.eqb x) l.

Inductive BrokerageFormat : Type :=
| schwab
| fidelity
| robinhood
| alightfs
| unknown.

(** [(h) => h.toLowerCase().trim()]. *)
Definition normalizeHeader (h : string) : string := trim (toLowerCase h).

(** [detectBrokerageFormat]. *)
Definition detectBrokerageFormat (headers : list string) : BrokerageFormat :=
  let normalized := map normalizeHeader headers in
  if includes normalized "fees & comm" || includes normalized "fees & commissions"
  then schwab else
  if includes normalized "run date" || includes normalized "price ($)"
  then fidelity else
  if includes normalized "activity date" || includes normalized "trans code"
     || includes normalized "instrument"
  then robinhood else
  unknown.

(** The seven header names the detection looks for. *)
Definition markers : list string :=
  ["fees & comm"; "fees & commissions"; "run date"; "price ($)";
   "activity date"; "trans code"; "instrument"]%string.

End CsvImport.

(** * Properties *)

(** ** Comparisons *)

Lemma leb_true (x y : Q) : Js.leb x y = true <-> x <= y.
Proof. unfold Js.leb. apply Qle_bool_iff. Qed.

Lemma leb_false (x y : Q) : Js.leb x y = false <-> y < x.
Proof.
  unfold Js.leb. split; intro H.
  - apply Qnot_le_lt. intro Hle. apply Qle_bool_iff in Hle. congruence.
  - destruct (Qle_bool x y) eqn:E; [|reflexivity].
    apply Qle_bool_iff in E. exfalso. apply (Qlt_not_le _ _ H E).
Qed.

Lemma ltb_true (x y : Q) : Js.ltb x y = true <-> x < y.
Proof.
  unfold Js.ltb. rewrite negb_true_iff. apply (leb_false y x).
Qed.

Lemma ltb_false (x y : Q) : Js.ltb x y = false <-> y <= x.
Proof.
  unfold Js.ltb. rewrite negb_false_iff. apply (leb_true y x).
Qed.

Lemma eqb_true (x y : Q) : Js.eqb x y = true <-> x == y.
Proof. unfold Js.eqb. apply Qeq_bool_iff. Qed.

Lemma eqb_false (x y : Q) : Js.eqb x y = false <-> ~ x == y.
Proof.
  unfold Js.eqb. split; intro H.
  - intro E. apply Qeq_bool_iff in E. congruence.
  - destruct (Qeq_bool x y) eqn:E; [|reflexivity].
    apply Qeq_bool_iff in E. contradiction.
Qed.

(** Case split on the first comparison of the goal, recording its meaning. *)
Ltac split_cmp :=
  match goal with
  | |- context [Js.leb ?x ?y] =>
      let E := fresh "E" in
      destruct (Js.leb x y) eqn:E;
      [apply leb_true in E | apply leb_false in E]
  | |- context [Js.ltb ?x ?y] =>
      let E := fresh "E" in
      destruct (Js.ltb x y) eqn:E;
      [apply ltb_true in E | apply ltb_false in E]
  | |- context [Js.eqb ?x ?y] =>
      let E := fresh "E" in
      destruct (Js.eqb x y) eqn:E;
      [apply eqb_true in E | apply eqb_false in E]
  end.

(** ** Clamping and integer values *)

Lemma isInt_Z (z : Z) : isInt (inject_Z z).
Proof. exists z. reflexivity. Qed.

Lemma isInt_plus (x y : Q) : isInt x -> isInt y -> isInt (x + y).
Proof.
  intros [a Ha] [b Hb]. exists (a + b)%Z.
  rewrite Ha, Hb, inject_Z_plus. reflexivity.
Qed.

Lemma isInt_minus (x y : Q) : isInt x -> isInt y -> isInt (x - y).
Proof.
  intros [a Ha] [b Hb]. exists (a - b)%Z.
  rewrite Ha, Hb. unfold Zminus, Qminus.
  rewrite inject_Z_plus, inject_Z_opp. reflexivity.
Qed.

Lemma isInt_if (b : bool) (x y : Q) : isInt x -> isInt y -> isInt (if b then x else y).
Proof. destruct b; trivial. Qed.

Lemma isInt_max (x y : Q) : isInt x -> isInt y -> isInt (Qmax x y).
Proof. intros Hx Hy. apply Q.max_case; trivial. intros a b E [z Hz]. exists z. rewrite <- E. exact Hz. Qed.

Lemma isInt_min (x y : Q) : isInt x -> isInt y -> isInt (Qmin x y).
Proof. intros Hx Hy. apply Q.min_case; trivial. intros a b E [z Hz]. exists z. rewrite <- E. exact Hz. Qed.

Create HintDb ints.
#[local] Hint Resolve isInt_plus isInt_minus isInt_if isInt_max isInt_min : ints.
#[local] Hint Extern 1 (isInt (Qmake _ 1)) => apply isInt_Z : ints.
#[local] Hint Extern 1 (isInt (inject_Z _)) => apply isInt_Z : ints.

(** [Math.max(lo, Math.min(hi, x))] lies in [[lo, hi]]. *)
Lemma clamp_bounds (lo hi x : Q) :
  lo <= hi -> lo <= Qmax lo (Qmin hi x) <= hi.
Proof.
  intro H. split.
  - apply Q.le_max_l.
  - apply Q.max_lub; [exact H | apply Q.le_min_l].
Qed.

(** Clamping leaves a value of the interval as it is. *)
Lemma clamp_id (lo hi x : Q) :
  lo <= x <= hi -> Qmax lo (Qmin hi x) == x.
Proof.
  intros [H1 H2].
  rewrite (Q.min_r hi x H2). apply Q.max_r. exact H1.
Qed.

(** An integer between two integers, read back in [Z]. *)
Lemma isInt_between (lo hi : Z) (x : Q) :
  isInt x -> inject_Z lo <= x <= inject_Z hi ->
  exists z : Z, (lo <= z <= hi)%Z /\ x == inject_Z z.
Proof.
  intros [z Hz] [H1 H2]. exists z. split; [|exact Hz].
  rewrite Hz in H1, H2. rewrite <- !Zle_Qle in *. lia.
Qed.

(** ** Bounds of the five sub-scores *)

Lemma scoreFibPosition_bounds (price : Q) (fib : FibLevels) :
  -25 <= scoreFibPosition price fib <= 25.
Proof.
  unfold scoreFibPosition, Js.geb, Js.gtb.
  repeat (split_cmp; cbn [andb]); split; discriminate.
Qed.

Lemma scoreFibPosition_int (price : Q) (fib : FibLevels) :
  isInt (scoreFibPosition price fib).
Proof. unfold scoreFibPosition. auto 20 with ints. Qed.

Lemma scoreRSI_bounds (rsi : Q) : -20 <= scoreRSI rsi <= 20.
Proof.
  unfold scoreRSI, Js.geb.
  repeat split_cmp; split; discriminate.
Qed.

Lemma scoreRSI_int (rsi : Q) : isInt (scoreRSI rsi).
Proof. unfold scoreRSI. auto 20 with ints. Qed.

Lemma scoreEMAAlignment_bounds (price e9 e21 e50 e200 : Q) :
  -20 <= scoreEMAAlignment price e9 e21 e50 e200 <= 20.
Proof. unfold scoreEMAAlignment. apply clamp_bounds. discriminate. Qed.

Lemma scoreEMAAlignment_int (price e9 e21 e50 e200 : Q) :
  isInt (scoreEMAAlignment price e9 e21 e50 e200).
Proof. unfold scoreEMAAlignment. cbv zeta. auto 30 with ints. Qed.

Lemma scoreSRProximity_bounds (price : Q) (s r : option Q) :
  -15 <= scoreSRProximity price s r <= 15.
Proof.
  unfold scoreSRProximity.
  destruct (negb (Js.truthy s) && negb (Js.truthy r)).
  - split; discriminate.
  - apply clamp_bounds. discriminate.
Qed.

Lemma scoreSRProximity_int (price : Q) (s r : option Q) :
  isInt (scoreSRProximity price s r).
Proof.
  unfold scoreSRProximity. cbv zeta.
  destruct s, r; auto 30 with ints.
Qed.

Lemma scoreMACDMomentum_bounds (m s h : Q) :
  -15 <= scoreMACDMomentum m s h <= 15.
Proof. unfold scoreMACDMomentum. apply clamp_bounds. discriminate. Qed.

Lemma scoreMACDMomentum_int (m s h : Q) : isInt (scoreMACDMomentum m s h).
Proof. unfold scoreMACDMomentum. cbv zeta. auto 30 with ints. Qed.

Lemma totalScore_int (ind : Indicators) : isInt (totalScore (computeScores ind)).
Proof.
  unfold totalScore, computeScores; cbn [fibScore rsiScore emaScore srScore macdScore].
  repeat apply isInt_plus.
  - apply scoreFibPosition_int.
  - apply scoreRSI_int.
  - apply scoreEMAAlignment_int.
  - apply scoreSRProximity_int.
  - apply scoreMACDMomentum_int.
Qed.

Lemma totalScore_bounds (ind : Indicators) :
  -95 <= totalScore (computeScores ind) <= 95.
Proof.
  unfold totalScore, computeScores; cbn [fibScore rsiScore emaScore srScore macdScore].
  pose proof (scoreFibPosition_bounds (i_currentPrice ind) (i_fib ind)).
  pose proof (scoreRSI_bounds (i_rsi ind)).
  pose proof (scoreEMAAlignment_bounds (i_currentPrice ind) (i_ema9 ind) (i_ema21 ind)
                (i_ema50 ind) (i_ema200 ind)).
  pose proof (scoreSRProximity_bounds (i_currentPrice ind)
                (support (i_nearest ind)) (resistance (i_nearest ind))).
  pose proof (scoreMACDMomentum_bounds (macdLine (i_macd ind)) (signalLine (i_macd ind))
                (histogram (i_macd ind))).
  lra.
Qed.


(** ** The trailing window *)

Lemma slice_tail_length {A : Type} (l : list A) (k : Z) :
  (0 < k)%Z ->
  length (Js.slice l (- k)) = Nat.min (Z.to_nat k) (length l).
Proof.
  intro Hk. unfold Js.slice.
  replace (- k <? 0)%Z with true by (symmetry; apply Z.ltb_lt; lia).
  rewrite length_skipn. lia.
Qed.

Lemma slice_tail_nonempty {A : Type} (l : list A) (k : Z) :
  (0 < k)%Z -> l <> [] -> Js.slice l (- k) <> [].
Proof.
  intros Hk Hl E.
  apply (f_equal (@length A)) in E. rewrite slice_tail_length in E by exact Hk.
  destruct l; [congruence | cbn in E; lia].
Qed.

(** The last element of the array is the last element of the window. *)
Lemma last_in_slice (l : list Q) (k : Z) :
  (0 < k)%Z -> l <> [] -> In (Js.last_of l) (Js.slice l (- k)).
Proof.
  intros Hk Hl. unfold Js.slice, Js.last_of, Js.get.
  replace (- k <? 0)%Z with true by (symmetry; apply Z.ltb_lt; lia).
  set (m := Z.to_nat (Z.max (Z.of_nat (length l) + - k) 0)).
  assert (Hm : (m < length l)%nat).
  { destruct l; [congruence | cbn [length] in *; lia]. }
  replace (length l - 1)%nat with (m + (length l - 1 - m))%nat by lia.
  rewrite <- nth_skipn. apply nth_In. rewrite length_skipn. lia.
Qed.

Lemma fold_max_init (t : list Q) (x : Q) : x <= fold_left Qmax t x.
Proof.
  revert x. induction t as [|a t IH]; intro x; cbn.
  - apply Qle_refl.
  - apply Qle_trans with (Qmax x a); [apply Q.le_max_l | apply IH].
Qed.

Lemma fold_max_ge (t : list Q) (x y : Q) :
  In y t -> y <= fold_left Qmax t x.
Proof.
  revert x. induction t as [|a t IH]; intros x H; cbn; [destruct H|].
  destruct H as [H|H].
  - subst a. apply Qle_trans with (Qmax x y); [apply Q.le_max_r | apply fold_max_init].
  - apply IH. exact H.
Qed.

Lemma fold_min_init (t : list Q) (x : Q) : fold_left Qmin t x <= x.
Proof.
  revert x. induction t as [|a t IH]; intro x; cbn.
  - apply Qle_refl.
  - apply Qle_trans with (Qmin x a); [apply IH | apply Q.le_min_l].
Qed.

Lemma fold_min_le (t : list Q) (x y : Q) :
  In y t -> fold_left Qmin t x <= y.
Proof.
  revert x. induction t as [|a t IH]; intros x H; cbn; [destruct H|].
  destruct H as [H|H].
  - subst a. apply Qle_trans with (Qmin x y); [apply fold_min_init | apply Q.le_min_r].
  - apply IH. exact H.
Qed.

Lemma max_of_ge (l : list Q) (m y : Q) :
  Js.max_of l = Some m -> In y l -> y <= m.
Proof.
  destruct l as [|x t]; cbn; [discriminate|].
  intros [= <-] [H|H]; [subst y; apply fold_max_init | apply fold_max_ge; exact H].
Qed.

Lemma min_of_le (l : list Q) (m y : Q) :
  Js.min_of l = Some m -> In y l -> m <= y.
Proof.
  destruct l as [|x t]; cbn; [discriminate|].
  intros [= <-] [H|H]; [subst y; apply fold_min_init | apply fold_min_le; exact H].
Qed.

(** On a non-empty window the levels exist, and they are the seven values
    the source computes from the window's extrema. *)
Lemma calculateFibLevels_some (prices : list Q) (lookback : Z) :
  Js.slice prices (- lookback) <> [] ->
  exists hi lo,
    Js.max_of (Js.slice prices (- lookback)) = Some hi /\
    Js.min_of (Js.slice prices (- lookback)) = Some lo /\
    calculateFibLevels prices lookback =
      Some (mkFibLevels hi lo
              (hi - (hi - lo) * 0.236) (hi - (hi - lo) * 0.382) (hi - (hi - lo) * 0.5)
              (hi - (hi - lo) * 0.618) (hi - (hi - lo) * 0.786)).
Proof.
  intro Hw. unfold calculateFibLevels.
  destruct (Js.slice prices (- lookback)) as [|x t]; [congruence|].
  cbn [Js.max_of Js.min_of]. eauto.
Qed.

Lemma computeIndicators_some (prices : list Q) :
  prices <> [] ->
  exists fib,
    calculateFibLevels prices 60 = Some fib /\
    computeIndicators prices =
      Some (mkIndicators (Js.last_of prices) fib
              (findNearestFibLevels (Js.last_of prices) fib)
              (calculateRSI prices 14)
              (getLatestEMA prices 9) (getLatestEMA prices 21)
              (getLatestEMA prices 50) (getLatestEMA prices 200)
              (calculateMACD prices)).
Proof.
  intro Hp.
  destruct (calculateFibLevels_some prices 60) as (hi & lo & _ & _ & Hf).
  { apply (slice_tail_nonempty prices 60); [lia | exact Hp]. }
  eexists. split; [exact Hf|].
  unfold computeIndicators. destruct prices as [|p ps]; [congruence|].
  rewrite Hf. reflexivity.
Qed.

(** ** Label thresholds *)

Lemma labelFromScore_thresholds (s : Q) :
  (50 <= s -> labelFromScore s = strong_buy) /\
  (20 <= s < 50 -> labelFromScore s = buy) /\
  (s <= -50 -> labelFromScore s = strong_sell) /\
  (-50 < s <= -20 -> labelFromScore s = sell) /\
  (-20 < s < 20 -> labelFromScore s = neutral).
Proof.
  unfold labelFromScore, Js.geb.
  repeat split_cmp; repeat split; intros; try reflexivity; exfalso; lra.
Qed.

(** C1.  For every non-empty price series (and every ticker and as-of date)
    [generateSignals] returns a result whose [signal_score] is an integer of
    [[-100, 100]] and whose [signal_label] follows from that score by the
    thresholds taken in order: [>= 50] strong_buy, [>= 20] buy, [<= -50]
    strong_sell, [<= -20] sell, otherwise neutral. *)
Theorem generateSignals_score_and_label (tk : string) (prices : list Q) (d : string) :
  prices <> [] ->
  exists r : SignalResult,
    generateSignals tk prices d = Some r /\
    (exists z : Z, (-100 <= z <= 100)%Z /\ signal_score r == inject_Z z) /\
    (50 <= signal_score r -> signal_label r = strong_buy) /\
    (20 <= signal_score r < 50 -> signal_label r = buy) /\
    (signal_score r <= -50 -> signal_label r = strong_sell) /\
    (-50 < signal_score r <= -20 -> signal_label r = sell) /\
    (-20 < signal_score r < 20 -> signal_label r = neutral).
Proof.
  intro Hp.
  destruct (computeIndicators_some prices Hp) as (fib & _ & Hind).
  unfold generateSignals. rewrite Hind.
  eexists. split; [reflexivity|].
  cbn [signal_score signal_label]. split.
  - apply (isInt_between (-100) 100).
    + unfold clampScore. apply isInt_max; [apply (isInt_Z (-100))|].
      apply isInt_min; [apply (isInt_Z 100) | apply totalScore_int].
    + apply clamp_bounds. discriminate.
  - apply labelFromScore_thresholds.
Qed.

Lemma generateSignals_score_and_label_witness :
  exists r : SignalResult,
    generateSignals "ACME" [1; 2] "2024-01-02" = Some r /\
    (exists z : Z, (-100 <= z <= 100)%Z /\ signal_score r == inject_Z z) /\
    (50 <= signal_score r -> signal_label r = strong_buy) /\
    (20 <= signal_score r < 50 -> signal_label r = buy) /\
    (signal_score r <= -50 -> signal_label r = strong_sell) /\
    (-50 < signal_score r <= -20 -> signal_label r = sell) /\
    (-20 < signal_score r < 20 -> signal_label r = neutral).
Proof.
  apply (generateSignals_score_and_label "ACME" [1; 2] "2024-01-02").
  discriminate.
Defined.

(** C5.  For every input of [generateSignals], each of the five sub-scores
    respects its bound (25, 20, 20, 15, 15 in absolute value), their sum lies
    in [[-95, 95]], and the clamp to [[-100, 100]] leaves that sum as it is. *)
Theorem subscores_never_saturate (prices : list Q) :
  prices <> [] ->
  exists ind : Indicators,
    computeIndicators prices = Some ind /\
    let s := computeScores ind in
    -25 <= fibScore s <= 25 /\
    -20 <= rsiScore s <= 20 /\
    -20 <= emaScore s <= 20 /\
    -15 <= srScore s <= 15 /\
    -15 <= macdScore s <= 15 /\
    -95 <= totalScore s <= 95 /\
    clampScore (totalScore s) == totalScore s.
Proof.
  intro Hp.
  destruct (computeIndicators_some prices Hp) as (fib & _ & Hind).
  eexists. split; [exact Hind|].
  match goal with |- let s := computeScores ?i in _ => set (ind := i) end.
  intro s. subst s.
  pose proof (totalScore_bounds ind) as Ht.
  repeat split; cbn [computeScores fibScore rsiScore emaScore srScore macdScore];
    try apply scoreFibPosition_bounds; try apply scoreRSI_bounds;
    try apply scoreEMAAlignment_bounds; try apply scoreSRProximity_bounds;
    try apply scoreMACDMomentum_bounds; try apply Ht.
  unfold clampScore. apply clamp_id. lra.
Qed.

Lemma subscores_never_saturate_witness :
  exists ind : Indicators,
    computeIndicators [3; 1; 2] = Some ind /\
    let s := computeScores ind in
    -25 <= fibScore s <= 25 /\
    -20 <= rsiScore s <= 20 /\
    -20 <= emaScore s <= 20 /\
    -15 <= srScore s <= 15 /\
    -15 <= macdScore s <= 15 /\
    -95 <= totalScore s <= 95 /\
    clampScore (totalScore s) == totalScore s.
Proof.
  apply (subscores_never_saturate [3; 1; 2]). discriminate.
Defined.

(** ** Retracement levels *)

Lemma window_low_le_high (w : list Q) (hi lo : Q) :
  Js.max_of w = Some hi -> Js.min_of w = Some lo -> lo <= hi.
Proof.
  intros Hhi Hlo. destruct w as [|x t]; [discriminate|].
  apply Qle_trans with x.
  - apply (min_of_le _ _ _ Hlo). left. reflexivity.
  - apply (max_of_ge _ _ _ Hhi). left. reflexivity.
Qed.

(** C3.  On every non-empty window the levels are ordered,
    [high >= level_236 >= level_382 >= level_500 >= level_618 >= level_786 >= low],
    and on a flat window (range zero) the seven values are equal. *)
Theorem calculateFibLevels_ordered (prices : list Q) (lookback : Z) :
  Js.slice prices (- lookback) <> [] ->
  exists fib : FibLevels,
    calculateFibLevels prices lookback = Some fib /\
    (low fib <= level_786 fib /\ level_786 fib <= level_618 fib /\
     level_618 fib <= level_500 fib /\ level_500 fib <= level_382 fib /\
     level_382 fib <= level_236 fib /\ level_236 fib <= high fib) /\
    (high fib - low fib == 0 ->
     low fib == high fib /\ level_786 fib == high fib /\ level_618 fib == high fib /\
     level_500 fib == high fib /\ level_382 fib == high fib /\ level_236 fib == high fib).
Proof.
  intro Hw.
  destruct (calculateFibLevels_some prices lookback Hw) as (hi & lo & Hhi & Hlo & Hf).
  pose proof (window_low_le_high _ _ _ Hhi Hlo) as Hle.
  eexists. split; [exact Hf|].
  cbn [high low level_236 level_382 level_500 level_618 level_786].
  split.
  - repeat split; lra.
  - intro Hflat. repeat split; lra.
Qed.

Lemma calculateFibLevels_ordered_witness :
  exists fib : FibLevels,
    calculateFibLevels [100; 50; 80] 60 = Some fib /\
    (low fib <= level_786 fib /\ level_786 fib <= level_618 fib /\
     level_618 fib <= level_500 fib /\ level_500 fib <= level_382 fib /\
     level_382 fib <= level_236 fib /\ level_236 fib <= high fib) /\
    (high fib - low fib == 0 ->
     low fib == high fib /\ level_786 fib == high fib /\ level_618 fib == high fib /\
     level_500 fib == high fib /\ level_382 fib == high fib /\ level_236 fib == high fib).
Proof.
  apply (calculateFibLevels_ordered [100; 50; 80] 60). discriminate.
Defined.

(** ** Nearest levels *)

Lemma nearestStep_support_kept (price : Q) (acc : Nearest) (level : Q) :
  support acc <> None -> support (nearestStep price acc level) <> None.
Proof.
  intro H. unfold nearestStep; cbn [support].
  destruct (Js.leb level price); [|exact H].
  destruct (_ || _); [discriminate | exact H].
Qed.

Lemma nearestStep_resistance_kept (price : Q) (acc : Nearest) (level : Q) :
  resistance acc <> None -> resistance (nearestStep price acc level) <> None.
Proof.
  intro H. unfold nearestStep; cbn [resistance].
  destruct (Js.geb level price); [|exact H].
  destruct (_ || _); [discriminate | exact H].
Qed.

Lemma nearestStep_support_set (price : Q) (acc : Nearest) (level : Q) :
  level <= price -> support (nearestStep price acc level) <> None.
Proof.
  intro H. unfold nearestStep; cbn [support].
  apply leb_true in H. rewrite H.
  destruct (support acc) as [s|]; cbn [Js.truthy negb orb]; [|discriminate].
  destruct (_ || _); discriminate.
Qed.

Lemma nearestStep_resistance_set (price : Q) (acc : Nearest) (level : Q) :
  price <= level -> resistance (nearestStep price acc level) <> None.
Proof.
  intro H. unfold nearestStep; cbn [resistance].
  apply leb_true in H. unfold Js.geb. rewrite H.
  destruct (resistance acc) as [s|]; cbn [Js.truthy negb orb]; [|discriminate].
  destruct (_ || _); discriminate.
Qed.

Lemma nearest_support_found (price : Q) (levels : list Q) (acc : Nearest) :
  support acc <> None \/ (exists l, In l levels /\ l <= price) ->
  support (fold_left (nearestStep price) levels acc) <> None.
Proof.
  revert acc. induction levels as [|a t IH]; intros acc H; cbn [fold_left].
  - destruct H as [H | (l & [] & _)]. exact H.
  - apply IH. destruct H as [H | (l & [Hl | Hl] & Hle)].
    + left. apply nearestStep_support_kept. exact H.
    + subst l. left. apply nearestStep_support_set. exact Hle.
    + right. exists l. split; assumption.
Qed.

Lemma nearest_resistance_found (price : Q) (levels : list Q) (acc : Nearest) :
  resistance acc <> None \/ (exists l, In l levels /\ price <= l) ->
  resistance (fold_left (nearestStep price) levels acc) <> None.
Proof.
  revert acc. induction levels as [|a t IH]; intros acc H; cbn [fold_left].
  - destruct H as [H | (l & [] & _)]. exact H.
  - apply IH. destruct H as [H | (l & [Hl | Hl] & Hle)].
    + left. apply nearestStep_resistance_kept. exact H.
    + subst l. left. apply nearestStep_resistance_set. exact Hle.
    + right. exists l. split; assumption.
Qed.

(** C9.  For every non-empty series, the current price lies between the low
    and the high of the lookback window, so [generateSignals] returns a
    non-null nearest support and a non-null nearest resistance (strict
    positivity of the prices is not needed for this). *)
Theorem generateSignals_nearest_never_null (tk : string) (prices : list Q) (d : string) :
  prices <> [] ->
  exists r : SignalResult,
    generateSignals tk prices d = Some r /\
    low (fib_levels r) <= Js.last_of prices <= high (fib_levels r) /\
    nearest_fib_support r <> None /\
    nearest_fib_resistance r <> None.
Proof.
  intro Hp.
  assert (Hw : Js.slice prices (- (60)) <> [])
    by (apply (slice_tail_nonempty prices 60); [lia | exact Hp]).
  destruct (calculateFibLevels_some prices 60 Hw) as (hi & lo & Hhi & Hlo & Hf).
  destruct (computeIndicators_some prices Hp) as (fib & Hf' & Hind).
  rewrite Hf in Hf'. injection Hf' as <-.
  unfold generateSignals. rewrite Hind.
  eexists. split; [reflexivity|].
  cbn [fib_levels nearest_fib_support nearest_fib_resistance i_fib i_nearest high low].
  assert (Hin : In (Js.last_of prices) (Js.slice prices (- (60))))
    by (apply (last_in_slice prices 60); [lia | exact Hp]).
  pose proof (min_of_le _ _ _ Hlo Hin) as Hlow.
  pose proof (max_of_ge _ _ _ Hhi Hin) as Hhigh.
  split; [split; assumption|]. split.
  - apply nearest_support_found. right. exists lo. split; [left; reflexivity | exact Hlow].
  - apply nearest_resistance_found. right. exists hi.
    split; [cbn; tauto | exact Hhigh].
Qed.

Lemma generateSignals_nearest_never_null_witness :
  exists r : SignalResult,
    generateSignals "ACME" [4; 9; 6] "2024-01-02" = Some r /\
    low (fib_levels r) <= Js.last_of [4; 9; 6] <= high (fib_levels r) /\
    nearest_fib_support r <> None /\
    nearest_fib_resistance r <> None.
Proof.
  apply (generateSignals_nearest_never_null "ACME" [4; 9; 6] "2024-01-02"). discriminate.
Defined.

Lemma truthy_nonzero (x : Q) : ~ x == 0 -> Js.truthy (Some x) = true.
Proof. intro H. cbn. apply eqb_false in H. rewrite H. reflexivity. Qed.

Lemma nearestStep_support_spec (price : Q) (seen : list Q) (acc : Nearest) (level : Q) :
  Forall (fun l => ~ l == 0) seen ->
  isSupportOf price seen (support acc) ->
  isSupportOf price (seen ++ [level]) (support (nearestStep price acc level)).
Proof.
  intros Hnz Hacc. unfold nearestStep; cbn [support].
  destruct (support acc) as [s|]; cbn [isSupportOf] in Hacc.
  - destruct Hacc as (Hin & Hle & Hmax).
    rewrite (truthy_nonzero s) by (rewrite Forall_forall in Hnz; auto).
    cbn [negb orb]. unfold Js.gtb.
    destruct (Js.leb level price) eqn:E1.
    + apply leb_true in E1.
      destruct (Js.ltb s level) eqn:E2.
      * apply ltb_true in E2. cbn. repeat split.
        -- apply in_or_app. right. left. reflexivity.
        -- exact E1.
        -- intros l Hl Hlp. apply in_app_or in Hl. destruct Hl as [Hl | [<- | []]].
           ++ apply Qle_trans with s; [auto | apply Qlt_le_weak; exact E2].
           ++ apply Qle_refl.
      * apply ltb_false in E2. cbn. repeat split.
        -- apply in_or_app. left. exact Hin.
        -- exact Hle.
        -- intros l Hl Hlp. apply in_app_or in Hl. destruct Hl as [Hl | [<- | []]]; auto.
    + apply leb_false in E1. cbn. repeat split.
      * apply in_or_app. left. exact Hin.
      * exact Hle.
      * intros l Hl Hlp. apply in_app_or in Hl. destruct Hl as [Hl | [<- | []]]; auto.
        exfalso. apply (Qlt_not_le _ _ E1 Hlp).
  - cbn [Js.truthy negb orb].
    destruct (Js.leb level price) eqn:E1.
    + apply leb_true in E1. cbn. repeat split.
      * apply in_or_app. right. left. reflexivity.
      * exact E1.
      * intros l Hl Hlp. apply in_app_or in Hl. destruct Hl as [Hl | [<- | []]].
        -- exfalso. apply (Hacc l Hl Hlp).
        -- apply Qle_refl.
    + apply leb_false in E1. cbn.
      intros l Hl Hlp. apply in_app_or in Hl. destruct Hl as [Hl | [<- | []]].
      * apply (Hacc l Hl Hlp).
      * apply (Qlt_not_le _ _ E1 Hlp).
Qed.

Lemma nearestStep_resistance_spec (price : Q) (seen : list Q) (acc : Nearest) (level : Q) :
  Forall (fun l => ~ l == 0) seen ->
  isResistanceOf price seen (resistance acc) ->
  isResistanceOf price (seen ++ [level]) (resistance (nearestStep price acc level)).
Proof.
  intros Hnz Hacc. unfold nearestStep; cbn [resistance].
  destruct (resistance acc) as [s|]; cbn [isResistanceOf] in Hacc.
  - destruct Hacc as (Hin & Hle & Hmin).
    rewrite (truthy_nonzero s) by (rewrite Forall_forall in Hnz; auto).
    cbn [negb orb]. unfold Js.geb.
    destruct (Js.leb price level) eqn:E1.
    + apply leb_true in E1.
      destruct (Js.ltb level s) eqn:E2.
      * apply ltb_true in E2. cbn. repeat split.
        -- apply in_or_app. right. left. reflexivity.
        -- exact E1.
        -- intros l Hl Hlp. apply in_app_or in Hl. destruct Hl as [Hl | [<- | []]].
           ++ apply Qle_trans with s; [apply Qlt_le_weak; exact E2 | auto].
           ++ apply Qle_refl.
      * apply ltb_false in E2. cbn. repeat split.
        -- apply in_or_app. left. exact Hin.
        -- exact Hle.
        -- intros l Hl Hlp. apply in_app_or in Hl. destruct Hl as [Hl | [<- | []]]; auto.
    + apply leb_false in E1. cbn. repeat split.
      * apply in_or_app. left. exact Hin.
      * exact Hle.
      * intros l Hl Hlp. apply in_app_or in Hl. destruct Hl as [Hl | [<- | []]]; auto.
        exfalso. apply (Qlt_not_le _ _ E1 Hlp).
  - cbn [Js.truthy negb orb]. unfold Js.geb.
    destruct (Js.leb price level) eqn:E1.
    + apply leb_true in E1. cbn. repeat split.
      * apply in_or_app. right. left. reflexivity.
      * exact E1.
      * intros l Hl Hlp. apply in_app_or in Hl. destruct Hl as [Hl | [<- | []]].
        -- exfalso. apply (Hacc l Hl Hlp).
        -- apply Qle_refl.
    + apply leb_false in E1. cbn.
      intros l Hl Hlp. apply in_app_or in Hl. destruct Hl as [Hl | [<- | []]].
      * apply (Hacc l Hl Hlp).
      * apply (Qlt_not_le _ _ E1 Hlp).
Qed.

Lemma nearest_fold_spec (price : Q) (levels seen : list Q) (acc : Nearest) :
  Forall (fun l => ~ l == 0) (seen ++ levels) ->
  isSupportOf price seen (support acc) ->
  isResistanceOf price seen (resistance acc) ->
  isSupportOf price (seen ++ levels)
              (support (fold_left (nearestStep price) levels acc)) /\
  isResistanceOf price (seen ++ levels)
                 (resistance (fold_left (nearestStep price) levels acc)).
Proof.
  revert seen acc. induction levels as [|a t IH]; intros seen acc Hnz Hs Hr.
  - rewrite app_nil_r. cbn. split; assumption.
  - cbn [fold_left].
    replace (seen ++ a :: t) with ((seen ++ [a]) ++ t) in *
      by (rewrite <- app_assoc; reflexivity).
    assert (Hseen : Forall (fun l => ~ l == 0) seen).
    { apply Forall_app in Hnz. destruct Hnz as [Hnz _].
      apply Forall_app in Hnz. tauto. }
    apply IH.
    + exact Hnz.
    + apply nearestStep_support_spec; assumption.
    + apply nearestStep_resistance_spec; assumption.
Qed.

(** The locator meets its specification on every record none of whose seven
    levels is zero. *)
Lemma findNearestFibLevels_nonzero (price : Q) (fib : FibLevels) :
  Forall (fun l => ~ l == 0) (fibCandidates fib) ->
  isSupportOf price (fibCandidates fib) (support (findNearestFibLevels price fib)) /\
  isResistanceOf price (fibCandidates fib) (resistance (findNearestFibLevels price fib)).
Proof.
  intro Hnz. unfold findNearestFibLevels.
  apply (nearest_fold_spec price (fibCandidates fib) []).
  - exact Hnz.
  - cbn. intros l [].
  - cbn. intros l [].
Qed.

(** C4, at a window that touches zero.  For the series [[10; 0]] the
    candidates are [0, 2.14, 3.82, 5, 6.18, 7.64, 10].  At the current price
    [0] the candidate [0] is at or above the price and is the least such, yet
    the locator answers [2.14]: once [resistance] holds [0], the test
    [!resistance] takes it for [null] and the next level overwrites it. *)
Theorem findNearestFibLevels_zero_level :
  exists fib : FibLevels,
    calculateFibLevels [10; 0] 60 = Some fib /\
    In (low fib) (fibCandidates fib) /\
    0 <= low fib /\
    low fib < level_786 fib /\
    resistance (findNearestFibLevels 0 fib) = Some (level_786 fib) /\
    ~ isResistanceOf 0 (fibCandidates fib) (resistance (findNearestFibLevels 0 fib)).
Proof.
  eexists. split; [reflexivity|].
  split; [left; reflexivity|].
  split; [discriminate|].
  split; [reflexivity|].
  split; [reflexivity|].
  intro H. cbn in H. destruct H as (_ & _ & Hmin).
  specialize (Hmin (low {| high := 10; low := 0; level_236 := 10 - (10 - 0) * 0.236;
                           level_382 := 10 - (10 - 0) * 0.382;
                           level_500 := 10 - (10 - 0) * 0.5;
                           level_618 := 10 - (10 - 0) * 0.618;
                           level_786 := 10 - (10 - 0) * 0.786 |})).
  cbn in Hmin. apply Hmin; [tauto | discriminate | reflexivity].
Qed.

(** ** Exponential moving average *)

Section EmaLoop.

Variable prices : list Q.
Variable multiplier : Q.

Let run := emaRun prices multiplier.

Lemma emaLoop_length (idx : list nat) (acc : list Q) :
  length (fold_left (emaStep prices multiplier) idx acc) = (length acc + length idx)%nat.
Proof.
  revert acc. induction idx as [|i idx IH]; intro acc; cbn [fold_left length].
  - lia.
  - rewrite IH. unfold emaStep. rewrite length_app. cbn. lia.
Qed.

Lemma emaLoop_snoc (a m : nat) (acc : list Q) :
  run a (S m) acc = emaStep prices multiplier (run a m acc) (a + m).
Proof.
  unfold run, emaRun. rewrite seq_S, fold_left_app. reflexivity.
Qed.

Lemma emaLoop_stable (a m k : nat) (acc : list Q) :
  (k < length acc + m)%nat ->
  Js.get (run a (S m) acc) k = Js.get (run a m acc) k.
Proof.
  intro Hk. rewrite emaLoop_snoc. unfold emaStep, Js.get.
  apply app_nth1. unfold run, emaRun. rewrite emaLoop_length, length_seq. exact Hk.
Qed.

Lemma emaLoop_first (a m : nat) (seed : Q) :
  Js.get (run a m [seed]) 0 = seed.
Proof.
  induction m as [|m IH]; [reflexivity|].
  rewrite emaLoop_stable by (cbn; lia). exact IH.
Qed.

Lemma emaLoop_next (a m k : nat) (seed : Q) :
  (k < m)%nat ->
  Js.get (run a m [seed]) (k + 1) =
  (Js.get prices (a + k) - Js.get (run a m [seed]) k) * multiplier
  + Js.get (run a m [seed]) k.
Proof.
  induction m as [|m IH]; intro Hk; [lia|].
  destruct (Nat.eq_dec k m) as [->|Hne].
  - rewrite (emaLoop_stable a m m) by (cbn; lia).
    rewrite emaLoop_snoc. unfold emaStep at 1, Js.get at 1.
    assert (Hlen : length (run a m [seed]) = (m + 1)%nat).
    { unfold run, emaRun. rewrite emaLoop_length, length_seq. cbn. lia. }
    rewrite app_nth2 by lia. rewrite Hlen, Nat.sub_diag. cbn [nth].
    unfold Js.last_of. rewrite Hlen.
    replace (m + 1 - 1)%nat with m by lia. reflexivity.
  - rewrite !emaLoop_stable by (cbn; lia). apply IH. lia.
Qed.

End EmaLoop.

Ltac fold_emaRun :=
  match goal with
  | |- context [fold_left (emaStep ?p ?m) (seq ?a ?n) ?acc] =>
      change (fold_left (emaStep p m) (seq a n) acc) with (emaRun p m a n acc)
  end.

Lemma calculateEMA_short (prices : list Q) (period : nat) :
  (length prices < period)%nat -> calculateEMA prices period = [].
Proof.
  intro H. unfold calculateEMA.
  apply Nat.ltb_lt in H. rewrite H. reflexivity.
Qed.

Lemma calculateEMA_long_length (prices : list Q) (period : nat) :
  (period <= length prices)%nat ->
  length (calculateEMA prices period) = (length prices - period + 1)%nat.
Proof.
  intro H. unfold calculateEMA.
  apply Nat.ltb_ge in H. rewrite H.
  rewrite emaLoop_length, length_seq. cbn [length]. lia.
Qed.

(** C7.  For a series of length [n] and a period [p], [calculateEMA] returns
    (it is a total function, nothing is raised) a sequence of length
    [max(0, n - p + 1)], which is empty exactly when [n < p]. *)
Theorem calculateEMA_length (prices : list Q) (period : nat) :
  Z.of_nat (length (calculateEMA prices period)) =
    Z.max 0 (Z.of_nat (length prices) - Z.of_nat period + 1) /\
  (calculateEMA prices period = [] <-> (length prices < period)%nat).
Proof.
  destruct (Nat.lt_ge_cases (length prices) period) as [Hlt | Hge].
  - rewrite (calculateEMA_short _ _ Hlt). split; [cbn; lia | tauto].
  - pose proof (calculateEMA_long_length _ _ Hge) as Hlen. split.
    + rewrite Hlen. lia.
    + split; [|lia]. intro E. rewrite E in Hlen. cbn in Hlen. lia.
Qed.

Lemma sumOf_app (l1 l2 : list Q) : sumOf (l1 ++ l2) == sumOf l1 + sumOf l2.
Proof.
  unfold sumOf. induction l1 as [|x l1 IH]; cbn [app fold_right].
  - ring.
  - rewrite IH. ring.
Qed.

Lemma firstn_snoc (l : list Q) (k : nat) :
  (k < length l)%nat -> firstn (S k) l = firstn k l ++ [Js.get l k].
Proof.
  revert k. induction l as [|x l IH]; intros k Hk; [cbn in Hk; lia|].
  destruct k as [|k]; [reflexivity|].
  cbn [length] in Hk. change (firstn (S (S k)) (x :: l)) with (x :: firstn (S k) l).
  rewrite IH by lia. reflexivity.
Qed.

(** The first loop of [calculateEMA] adds up the first [k] prices. *)
Lemma emaSum_firstn (l : list Q) (k : nat) :
  (k <= length l)%nat ->
  fold_left (fun sum i => sum + Js.get l i) (seq 0 k) 0 == sumOf (firstn k l).
Proof.
  induction k as [|k IH]; intro Hk.
  - reflexivity.
  - rewrite seq_S, fold_left_app. cbn [fold_left Nat.add].
    rewrite IH by lia. rewrite firstn_snoc by lia.
    rewrite sumOf_app. unfold sumOf. cbn [fold_right]. ring.
Qed.

(** C8.  With [period] prices or more, the first value of [calculateEMA] is
    the arithmetic mean of the first [period] prices and each later value is
    [previous + (price - previous) * (2 / (period + 1))]; for period 3 on
    [[1,2,3,4,5]] the result is [[2,3,4]]. *)
Theorem calculateEMA_seed_and_recurrence :
  (forall (prices : list Q) (period : nat),
      (1 <= period <= length prices)%nat ->
      let ema := calculateEMA prices period in
      Js.get ema 0 == mean (firstn period prices) /\
      forall k : nat,
        (k + 1 < length ema)%nat ->
        Js.get ema (k + 1) ==
        Js.get ema k
        + (Js.get prices (period + k) - Js.get ema k)
          * (2 / (inject_Z (Z.of_nat period) + 1))) /\
  Forall2 Qeq (calculateEMA [1; 2; 3; 4; 5] 3) [2; 3; 4].
Proof.
  split.
  - intros prices period Hp ema.
    subst ema. unfold calculateEMA.
    replace (length prices <? period)%nat with false
      by (symmetry; apply Nat.ltb_ge; lia).
    split.
    + fold_emaRun. rewrite emaLoop_first. unfold mean.
      rewrite length_firstn, Nat.min_l by lia.
      rewrite emaSum_firstn by lia. reflexivity.
    + intros k Hk. rewrite emaLoop_length, length_seq in Hk. cbn [length] in Hk.
      fold_emaRun. rewrite emaLoop_next by lia. ring.
  - repeat constructor.
Qed.

Lemma calculateEMA_seed_and_recurrence_witness :
  (1 <= 3 <= length [1; 2; 3; 4; 5])%nat /\
  let ema := calculateEMA [1; 2; 3; 4; 5] 3 in
  Js.get ema 0 == mean (firstn 3 [1; 2; 3; 4; 5]) /\
  forall k : nat,
    (k + 1 < length ema)%nat ->
    Js.get ema (k + 1) ==
    Js.get ema k
    + (Js.get [1; 2; 3; 4; 5] (3 + k) - Js.get ema k)
      * (2 / (inject_Z (Z.of_nat 3) + 1)).
Proof.
  split; [cbn; lia|].
  apply (proj1 calculateEMA_seed_and_recurrence [1; 2; 3; 4; 5] 3%nat).
  cbn; lia.
Defined.

(** ** RSI *)

Lemma rsiInitStep_nonneg (prices : list Q) (acc : Q * Q) (i : nat) :
  bothNonneg acc -> bothNonneg (rsiInitStep prices acc i).
Proof.
  intros [Hg Hl]. unfold rsiInitStep, bothNonneg, Js.gtb, Js.abs.
  split_cmp; cbn [fst snd]; split; try assumption.
  - lra.
  - pose proof (Qabs_nonneg (priceChange prices i)). lra.
Qed.

Lemma smooth_nonneg (avg p x : Q) :
  1 <= p -> 0 <= avg -> 0 <= x -> 0 <= (avg * (p - 1) + x) / p.
Proof.
  intros Hp Havg Hx.
  apply Qle_shift_div_l; [lra|].
  assert (0 <= avg * (p - 1)) by (apply Qmult_le_0_compat; lra).
  lra.
Qed.

Lemma rsiSmoothStep_nonneg (prices : list Q) (p : Q) (acc : Q * Q) (i : nat) :
  1 <= p -> bothNonneg acc -> bothNonneg (rsiSmoothStep prices p acc i).
Proof.
  intros Hp [Hg Hl]. unfold rsiSmoothStep, bothNonneg, Js.gtb, Js.abs. cbn [fst snd].
  split; apply smooth_nonneg; try assumption.
  - split_cmp; lra.
  - split_cmp; [apply Qabs_nonneg | lra].
Qed.

Lemma fold_nonneg (step : Q * Q -> nat -> Q * Q) (idx : list nat) (acc : Q * Q) :
  (forall a i, bothNonneg a -> bothNonneg (step a i)) ->
  bothNonneg acc -> bothNonneg (fold_left step idx acc).
Proof.
  intro Hstep. revert acc. induction idx as [|i idx IH]; intros acc Hacc; cbn.
  - exact Hacc.
  - apply IH, Hstep, Hacc.
Qed.

Lemma inject_nat_ge_1 (n : nat) : (1 <= n)%nat -> 1 <= inject_Z (Z.of_nat n).
Proof. intro H. change 1 with (inject_Z 1). rewrite <- Zle_Qle. lia. Qed.

(** The averages are non-negative after every turn of the smoothing loop. *)
Lemma rsiSmoothed_nonneg (prices : list Q) (period steps : nat) :
  (1 <= period)%nat -> bothNonneg (rsiSmoothed prices period steps).
Proof.
  intro Hp. apply inject_nat_ge_1 in Hp. unfold rsiSmoothed.
  apply fold_nonneg.
  - intros a i. apply rsiSmoothStep_nonneg. exact Hp.
  - assert (Hs : bothNonneg (fold_left (rsiInitStep prices) (seq 1 period) (0, 0))).
    { apply fold_nonneg; [apply rsiInitStep_nonneg | split; apply Qle_refl]. }
    destruct Hs as [Hg Hl].
    split; cbn [fst snd]; apply Qle_shift_div_l; lra.
Qed.

Lemma rsi_formula_range (g l : Q) :
  0 <= g -> 0 < l -> 0 <= 100 - 100 / (1 + g / l) <= 100.
Proof.
  intros Hg Hl.
  assert (Hrs : 0 <= g / l) by (apply Qle_shift_div_l; lra).
  assert (H1 : 0 <= 100 / (1 + g / l)) by (apply Qle_shift_div_l; lra).
  assert (H2 : 100 / (1 + g / l) <= 100) by (apply Qle_shift_div_r; lra).
  lra.
Qed.

(** C2.  For every series and every period of at least 1, [calculateRSI]
    returns a value of [[0, 100]]: exactly 50 when the series has fewer than
    [period + 1] elements; otherwise the averages stay non-negative through
    every turn of Wilder's recurrence, and the value is exactly 100 when the
    final average loss is 0 and [100 - 100 / (1 + avgGain / avgLoss)] when
    it is not. *)
Theorem calculateRSI_range (prices : list Q) (period : nat) :
  (1 <= period)%nat ->
  0 <= calculateRSI prices period <= 100 /\
  ((length prices < period + 1)%nat -> calculateRSI prices period = 50) /\
  ((period + 1 <= length prices)%nat ->
   (forall steps : nat,
       0 <= fst (rsiSmoothed prices period steps) /\
       0 <= snd (rsiSmoothed prices period steps)) /\
   let avgGain := fst (rsiAverages prices period) in
   let avgLoss := snd (rsiAverages prices period) in
   (avgLoss == 0 -> calculateRSI prices period = 100) /\
   (~ avgLoss == 0 ->
    calculateRSI prices period = 100 - 100 / (1 + avgGain / avgLoss))).
Proof.
  intro Hp.
  pose proof (rsiSmoothed_nonneg prices period
                (length prices - (period + 1)) Hp) as [Hg Hl].
  fold (rsiAverages prices period) in Hg, Hl.
  unfold calculateRSI.
  destruct (length prices <? period + 1)%nat eqn:E.
  - apply Nat.ltb_lt in E. split; [split; discriminate|].
    split; [reflexivity | lia].
  - apply Nat.ltb_ge in E. cbv zeta. split; [|split; [lia|]].
    + split_cmp; [split; discriminate|].
      apply rsi_formula_range; [exact Hg|].
      apply Qle_lteq in Hl. destruct Hl as [Hl|Hl]; [exact Hl|].
      exfalso. apply E0. symmetry. exact Hl.
    + intros _. split; [intro steps; apply rsiSmoothed_nonneg; exact Hp|].
      split; intro H.
      * apply eqb_true in H. rewrite H. reflexivity.
      * apply eqb_false in H. rewrite H. reflexivity.
Qed.

Lemma calculateRSI_range_witness :
  let prices := [44; 45; 43; 46] in
  0 <= calculateRSI prices 2 <= 100 /\
  ((length prices < 2 + 1)%nat -> calculateRSI prices 2 = 50) /\
  ((2 + 1 <= length prices)%nat ->
   (forall steps : nat,
       0 <= fst (rsiSmoothed prices 2 steps) /\
       0 <= snd (rsiSmoothed prices 2 steps)) /\
   let avgGain := fst (rsiAverages prices 2) in
   let avgLoss := snd (rsiAverages prices 2) in
   (avgLoss == 0 -> calculateRSI prices 2 = 100) /\
   (~ avgLoss == 0 ->
    calculateRSI prices 2 = 100 - 100 / (1 + avgGain / avgLoss))).
Proof.
  apply (calculateRSI_range [44; 45; 43; 46] 2). lia.
Defined.

(** ** Fallback of the latest moving average *)

Lemma getLatestEMA_short (prices : list Q) (period : nat) :
  (length prices < period)%nat ->
  calculateEMA prices period = [] /\ getLatestEMA prices period = Js.last_of prices.
Proof.
  intro H. assert (E : calculateEMA prices period = []).
  { apply calculateEMA_short. exact H. }
  split; [exact E|]. unfold getLatestEMA. rewrite E. reflexivity.
Qed.

(** C10.  When the series is shorter than a moving-average period (9, 21, 50
    or 200), so that the moving-average sequence is empty, [generateSignals]
    reports the last closing price, rounded to two decimal places, as that
    period's field, and the alignment sub-score is computed with the last
    closing price in that period's place. *)
Theorem short_series_ema_is_last_price (tk : string) (prices : list Q) (d : string) :
  prices <> [] ->
  exists (r : SignalResult) (ind : Indicators),
    generateSignals tk prices d = Some r /\
    computeIndicators prices = Some ind /\
    let price := Js.last_of prices in
    ((length prices < 9)%nat ->
     calculateEMA prices 9 = [] /\ ema_9 r = round2 price /\ i_ema9 ind = price) /\
    ((length prices < 21)%nat ->
     calculateEMA prices 21 = [] /\ ema_21 r = round2 price /\ i_ema21 ind = price) /\
    ((length prices < 50)%nat ->
     calculateEMA prices 50 = [] /\ ema_50 r = round2 price /\ i_ema50 ind = price) /\
    ((length prices < 200)%nat ->
     calculateEMA prices 200 = [] /\ ema_200 r = round2 price /\ i_ema200 ind = price) /\
    emaScore (computeScores ind) =
      scoreEMAAlignment price (i_ema9 ind) (i_ema21 ind) (i_ema50 ind) (i_ema200 ind).
Proof.
  intro Hp.
  destruct (computeIndicators_some prices Hp) as (fib & _ & Hind).
  unfold generateSignals. rewrite Hind.
  do 2 eexists. split; [reflexivity|]. split; [reflexivity|].
  cbn [ema_9 ema_21 ema_50 ema_200 i_ema9 i_ema21 i_ema50 i_ema200].
  cbv zeta.
  repeat split; try (apply getLatestEMA_short; assumption);
    rewrite (proj2 (getLatestEMA_short _ _ H)); reflexivity.
Qed.

Lemma short_series_ema_is_last_price_witness :
  let prices := [10; 12; 11] in
  exists (r : SignalResult) (ind : Indicators),
    generateSignals "ACME" prices "2024-01-02" = Some r /\
    computeIndicators prices = Some ind /\
    let price := Js.last_of prices in
    ((length prices < 9)%nat ->
     calculateEMA prices 9 = [] /\ ema_9 r = round2 price /\ i_ema9 ind = price) /\
    ((length prices < 21)%nat ->
     calculateEMA prices 21 = [] /\ ema_21 r = round2 price /\ i_ema21 ind = price) /\
    ((length prices < 50)%nat ->
     calculateEMA prices 50 = [] /\ ema_50 r = round2 price /\ i_ema50 ind = price) /\
    ((length prices < 200)%nat ->
     calculateEMA prices 200 = [] /\ ema_200 r = round2 price /\ i_ema200 ind = price) /\
    emaScore (computeScores ind) =
      scoreEMAAlignment price (i_ema9 ind) (i_ema21 ind) (i_ema50 ind) (i_ema200 ind).
Proof.
  apply (short_series_ema_is_last_price "ACME" [10; 12; 11] "2024-01-02"). discriminate.
Defined.

(** ** Rounding of the reported fields *)

Lemma round_near (x : Q) : x - (1 # 2) < Js.round x <= x + (1 # 2).
Proof.
  unfold Js.round.
  pose proof (Qfloor_le (x + (1 # 2))) as H1.
  pose proof (Qlt_floor (x + (1 # 2))) as H2.
  rewrite inject_Z_plus in H2. change (inject_Z 1) with 1 in H2.
  split; lra.
Qed.

Lemma round2_rounded (x : Q) : roundedTo 2 x (round2 x).
Proof.
  unfold roundedTo, round2. split.
  - exists (Qfloor (x * 100 + (1 # 2))). reflexivity.
  - change (1 / (2 * inject_Z (10 ^ Z.of_nat 2))) with (1 # 200).
    pose proof (round_near (x * 100)) as [H1 H2].
    split.
    + apply Qlt_shift_div_l; [reflexivity|]. lra.
    + apply Qle_shift_div_r; [reflexivity|]. lra.
Qed.

Lemma round4_rounded (x : Q) : roundedTo 4 x (round4 x).
Proof.
  unfold roundedTo, round4. split.
  - exists (Qfloor (x * 10000 + (1 # 2))). reflexivity.
  - change (1 / (2 * inject_Z (10 ^ Z.of_nat 4))) with (1 # 20000).
    pose proof (round_near (x * 10000)) as [H1 H2].
    split.
    + apply Qlt_shift_div_l; [reflexivity|]. lra.
    + apply Qle_shift_div_r; [reflexivity|]. lra.
Qed.

(** C6, as first stated, fails: on the series [[1.01; 2.02; 1.5]] the
    retracement level [level_236] is [1.78164] and the nearest support is
    [1.39582], neither of which has two decimal places. *)
Lemma generateSignals_levels_not_rounded :
  exists r : SignalResult,
    generateSignals "ACME" [1.01; 2.02; 1.5] "2024-01-02" = Some r /\
    level_236 (fib_levels r) == 1.78164 /\
    ~ hasDecimals 2 (level_236 (fib_levels r)) /\
    exists s : Q,
      nearest_fib_support r = Some s /\ s == 1.39582 /\ ~ hasDecimals 2 s.
Proof.
  eexists. split; [reflexivity|].
  cbn [fib_levels nearest_fib_support].
  split; [reflexivity|]. split.
  - intros [k Hk]. unfold Qeq, Qdiv, Qmult, Qinv in Hk. cbn in Hk.
    apply (f_equal (fun z => (z mod 1000000000)%Z)) in Hk. cbv beta in Hk.
    rewrite Z.mod_mul in Hk by discriminate. discriminate Hk.
  - eexists. split; [reflexivity|]. split; [reflexivity|].
    intros [k Hk]. unfold Qeq, Qdiv, Qmult, Qinv in Hk. cbn in Hk.
    apply (f_equal (fun z => (z mod 1000000000)%Z)) in Hk. cbv beta in Hk.
    rewrite Z.mod_mul in Hk by discriminate. discriminate Hk.
Qed.

(** C6, amended.  In the result of [generateSignals] the oscillator value and
    the four moving averages are the indicators rounded to 2 decimal places
    and the three MACD values are rounded to 4 decimal places; the
    retracement levels and the nearest support and resistance are handed over
    as computed, without rounding. *)
Theorem generateSignals_rounding (tk : string) (prices : list Q) (d : string) :
  prices <> [] ->
  exists r : SignalResult,
    generateSignals tk prices d = Some r /\
    roundedTo 2 (calculateRSI prices 14) (rsi_14 r) /\
    roundedTo 2 (getLatestEMA prices 9) (ema_9 r) /\
    roundedTo 2 (getLatestEMA prices 21) (ema_21 r) /\
    roundedTo 2 (getLatestEMA prices 50) (ema_50 r) /\
    roundedTo 2 (getLatestEMA prices 200) (ema_200 r) /\
    roundedTo 4 (macdLine (calculateMACD prices)) (macd_line r) /\
    roundedTo 4 (signalLine (calculateMACD prices)) (macd_signal r) /\
    roundedTo 4 (histogram (calculateMACD prices)) (macd_histogram r) /\
    calculateFibLevels prices 60 = Some (fib_levels r) /\
    nearest_fib_support r =
      support (findNearestFibLevels (Js.last_of prices) (fib_levels r)) /\
    nearest_fib_resistance r =
      resistance (findNearestFibLevels (Js.last_of prices) (fib_levels r)).
Proof.
  intro Hp.
  destruct (computeIndicators_some prices Hp) as (fib & Hf & Hind).
  unfold generateSignals. rewrite Hind.
  eexists. split; [reflexivity|].
  cbn [rsi_14 ema_9 ema_21 ema_50 ema_200 macd_line macd_signal macd_histogram
       fib_levels nearest_fib_support nearest_fib_resistance
       i_rsi i_ema9 i_ema21 i_ema50 i_ema200 i_macd i_fib i_nearest].
  repeat split; try apply round2_rounded; try apply round4_rounded.
  exact Hf.
Qed.

Lemma generateSignals_rounding_witness :
  let prices := [1.01; 2.02; 1.5] in
  exists r : SignalResult,
    generateSignals "ACME" prices "2024-01-02" = Some r /\
    roundedTo 2 (calculateRSI prices 14) (rsi_14 r) /\
    roundedTo 2 (getLatestEMA prices 9) (ema_9 r) /\
    roundedTo 2 (getLatestEMA prices 21) (ema_21 r) /\
    roundedTo 2 (getLatestEMA prices 50) (ema_50 r) /\
    roundedTo 2 (getLatestEMA prices 200) (ema_200 r) /\
    roundedTo 4 (macdLine (calculateMACD prices)) (macd_line r) /\
    roundedTo 4 (signalLine (calculateMACD prices)) (macd_signal r) /\
    roundedTo 4 (histogram (calculateMACD prices)) (macd_histogram r) /\
    calculateFibLevels prices 60 = Some (fib_levels r) /\
    nearest_fib_support r =
      support (findNearestFibLevels (Js.last_of prices) (fib_levels r)) /\
    nearest_fib_resistance r =
      resistance (findNearestFibLevels (Js.last_of prices) (fib_levels r)).
Proof.
  apply (generateSignals_rounding "ACME" [1.01; 2.02; 1.5] "2024-01-02"). discriminate.
Defined.

(** ** Concrete scenarios of the specification *)

(** Scenario 1: on [1, 2, ..., 15] the average loss is 0 and the RSI is 100. *)
Example rsi_rising_series :
  calculateRSI (map (fun n => inject_Z (Z.of_nat n)) (seq 1 15)) 14 = 100.
Proof. vm_compute. reflexivity. Qed.

(** Scenario 3: with high 100 and low 50, [level_500] is 75 and [level_618]
    is 69.1. *)
Example fib_levels_100_50 :
  exists fib : FibLevels,
    calculateFibLevels [100; 50] 60 = Some fib /\
    level_500 fib == 75 /\ level_618 fib == 69.1.
Proof. eexists. split; [reflexivity|]. split; reflexivity. Qed.

(** Scenario 4: a flat series long enough for the period has both averages
    at 0 and takes the [avgLoss === 0] branch. *)
Example rsi_flat_series :
  calculateRSI (repeat 42 16) 14 = 100 /\ calculateRSI (repeat 42 14) 14 = 50.
Proof. split; vm_compute; reflexivity. Qed.

(** * Further properties of the engine *)

(** ** The locator on arbitrary records *)

Lemma nearestStep_sound (price : Q) (all : list Q) (acc : Nearest) (level : Q) :
  In level all ->
  atOrBelow price all (support acc) /\ atOrAbove price all (resistance acc) ->
  atOrBelow price all (support (nearestStep price acc level)) /\
  atOrAbove price all (resistance (nearestStep price acc level)).
Proof.
  intros Hin [Hs Hr]. unfold nearestStep; cbn [support resistance]. split.
  - destruct (Js.leb level price) eqn:E; [|exact Hs].
    apply leb_true in E.
    destruct (_ || _); [split; assumption | exact Hs].
  - unfold Js.geb. destruct (Js.leb price level) eqn:E; [|exact Hr].
    apply leb_true in E.
    destruct (_ || _); [split; assumption | exact Hr].
Qed.

Lemma nearest_fold_sound (price : Q) (all levels : list Q) (acc : Nearest) :
  incl levels all ->
  atOrBelow price all (support acc) /\ atOrAbove price all (resistance acc) ->
  atOrBelow price all (support (fold_left (nearestStep price) levels acc)) /\
  atOrAbove price all (resistance (fold_left (nearestStep price) levels acc)).
Proof.
  revert acc. induction levels as [|a t IH]; intros acc Hincl Hacc; cbn [fold_left].
  - exact Hacc.
  - apply IH.
    + intros x Hx. apply Hincl. right. exact Hx.
    + apply nearestStep_sound; [apply Hincl; left; reflexivity | exact Hacc].
Qed.

(** X1.  Whatever the record (its levels need not be ordered, and may be zero
    or negative), a support reported by [findNearestFibLevels] is one of the
    seven levels and is at or below the price, and a reported resistance is
    one of the seven levels and is at or above the price. *)
Theorem findNearestFibLevels_sound (price : Q) (fib : FibLevels) :
  atOrBelow price (fibCandidates fib) (support (findNearestFibLevels price fib)) /\
  atOrAbove price (fibCandidates fib) (resistance (findNearestFibLevels price fib)).
Proof.
  unfold findNearestFibLevels. apply nearest_fold_sound.
  - apply incl_refl.
  - cbn. tauto.
Qed.

(** ** The locator inside the pipeline *)

Lemma Qmin_cases (x y : Q) : Qmin x y = x \/ Qmin x y = y.
Proof. unfold Qmin, GenericMinMax.gmin. destruct (x ?= y); auto. Qed.

Lemma Qmax_cases (x y : Q) : Qmax x y = x \/ Qmax x y = y.
Proof. unfold Qmax, GenericMinMax.gmax. destruct (x ?= y); auto. Qed.

Lemma fold_min_in (t : list Q) (x : Q) : In (fold_left Qmin t x) (x :: t).
Proof.
  revert x. induction t as [|a t IH]; intro x; cbn [fold_left].
  - left. reflexivity.
  - destruct (IH (Qmin x a)) as [H|H]; [|right; right; exact H].
    rewrite <- H.
    destruct (Qmin_cases x a) as [E|E]; rewrite E; [left | right; left]; reflexivity.
Qed.

Lemma fold_max_in (t : list Q) (x : Q) : In (fold_left Qmax t x) (x :: t).
Proof.
  revert x. induction t as [|a t IH]; intro x; cbn [fold_left].
  - left. reflexivity.
  - destruct (IH (Qmax x a)) as [H|H]; [|right; right; exact H].
    rewrite <- H.
    destruct (Qmax_cases x a) as [E|E]; rewrite E; [left | right; left]; reflexivity.
Qed.

Lemma min_of_in (l : list Q) (m : Q) : Js.min_of l = Some m -> In m l.
Proof.
  destruct l as [|x t]; cbn [Js.min_of]; [discriminate|].
  intros [= <-]. apply fold_min_in.
Qed.

Lemma max_of_in (l : list Q) (m : Q) : Js.max_of l = Some m -> In m l.
Proof.
  destruct l as [|x t]; cbn [Js.max_of]; [discriminate|].
  intros [= <-]. apply fold_max_in.
Qed.

Lemma slice_incl {A : Type} (l : list A) (start : Z) : incl (Js.slice l start) l.
Proof.
  unfold Js.slice. intros x Hx.
  set (k := Z.to_nat _) in Hx.
  rewrite <- (firstn_skipn k l). apply in_or_app. right. exact Hx.
Qed.

(** X2.  On a non-empty series of strictly positive prices, the nearest
    support reported by [generateSignals] is the greatest of the seven levels
    at or below the current price, and the nearest resistance the least of
    them at or above it. *)
Theorem generateSignals_nearest_on_positive (tk : string) (prices : list Q) (d : string) :
  prices <> [] ->
  Forall (fun p => 0 < p) prices ->
  exists r : SignalResult,
    generateSignals tk prices d = Some r /\
    isSupportOf (Js.last_of prices) (fibCandidates (fib_levels r))
                (nearest_fib_support r) /\
    isResistanceOf (Js.last_of prices) (fibCandidates (fib_levels r))
                   (nearest_fib_resistance r).
Proof.
  intros Hp Hpos.
  assert (Hw : Js.slice prices (- (60)) <> [])
    by (apply (slice_tail_nonempty prices 60); [lia | exact Hp]).
  destruct (calculateFibLevels_some prices 60 Hw) as (hi & lo & Hhi & Hlo & Hf).
  destruct (computeIndicators_some prices Hp) as (fib & Hf' & Hind).
  rewrite Hf in Hf'. injection Hf' as <-.
  unfold generateSignals. rewrite Hind.
  eexists. split; [reflexivity|].
  cbn [fib_levels nearest_fib_support nearest_fib_resistance i_fib i_nearest].
  apply findNearestFibLevels_nonzero.
  pose proof (window_low_le_high _ _ _ Hhi Hlo) as Hle.
  assert (Hlo0 : 0 < lo).
  { rewrite Forall_forall in Hpos. apply Hpos.
    apply (slice_incl prices (- (60))). apply min_of_in. exact Hlo. }
  unfold fibCandidates; cbn [high low level_236 level_382 level_500 level_618 level_786].
  repeat constructor; intro E; lra.
Qed.

Lemma generateSignals_nearest_on_positive_witness :
  let prices := [10; 14; 12] in
  exists r : SignalResult,
    generateSignals "ACME" prices "2024-01-02" = Some r /\
    isSupportOf (Js.last_of prices) (fibCandidates (fib_levels r))
                (nearest_fib_support r) /\
    isResistanceOf (Js.last_of prices) (fibCandidates (fib_levels r))
                   (nearest_fib_resistance r).
Proof.
  apply (generateSignals_nearest_on_positive "ACME" [10; 14; 12] "2024-01-02").
  - discriminate.
  - repeat constructor.
Defined.

(** ** Monotonicity of the threshold tables *)

(** X3.  [labelFromScore] is monotone: a higher score never gives a label
    lower on the scale strong_sell, sell, neutral, buy, strong_buy. *)
Theorem labelFromScore_monotone (s1 s2 : Q) :
  s1 <= s2 ->
  (labelRank (labelFromScore s1) <= labelRank (labelFromScore s2))%Z.
Proof.
  intro H. unfold labelFromScore, Js.geb.
  repeat split_cmp; cbn [labelRank]; try lia; exfalso; lra.
Qed.

Lemma labelFromScore_monotone_witness :
  -30 <= 25 /\ (labelRank (labelFromScore (-30)) <= labelRank (labelFromScore 25))%Z.
Proof.
  split; [discriminate|]. apply (labelFromScore_monotone (-30) 25). discriminate.
Defined.

(** X4.  [scoreRSI] is antitone: a higher oscillator value never gives a
    higher score. *)
Theorem scoreRSI_antitone (r1 r2 : Q) :
  r1 <= r2 -> scoreRSI r2 <= scoreRSI r1.
Proof.
  intro H. unfold scoreRSI, Js.geb.
  repeat split_cmp; try discriminate; exfalso; lra.
Qed.

Lemma scoreRSI_antitone_witness :
  35 <= 65 /\ scoreRSI 65 <= scoreRSI 35.
Proof.
  split; [discriminate|]. apply (scoreRSI_antitone 35 65). discriminate.
Defined.

(** ** The moving average stays within the range of the prices *)














(** ** MACD *)

Lemma push_loop_map {A : Type} (f : nat -> A) (idx : list nat) (acc : list A) :
  fold_left (fun out i => out ++ [f i]) idx acc = acc ++ map f idx.
Proof.
  revert acc. induction idx as [|i idx IH]; intro acc; cbn [fold_left map].
  - rewrite app_nil_r. reflexivity.
  - rewrite IH, <- app_assoc. reflexivity.
Qed.

Lemma last_of_tabulate (f : nat -> Q) (n : nat) :
  (1 <= n)%nat -> Js.last_of (map f (seq 0 n)) = f (n - 1)%nat.
Proof.
  intro Hn. unfold Js.last_of, Js.get.
  rewrite length_map, length_seq.
  rewrite (nth_indep _ 0 (f 0%nat)) by (rewrite length_map, length_seq; lia).
  rewrite map_nth, seq_nth by lia. reflexivity.
Qed.

Lemma calculateMACD_short (prices : list Q) :
  (length prices < 26)%nat -> calculateMACD prices = mkMacd 0 0 0.
Proof.
  intro H. unfold calculateMACD.
  rewrite (calculateEMA_short prices 26 H). cbn [length Nat.eqb].
  rewrite orb_true_r. reflexivity.
Qed.

(** With 26 prices or more, both averages exist and [calculateMACD] takes
    its second branch. *)
Lemma calculateMACD_long (prices : list Q) :
  (26 <= length prices)%nat ->
  let ema12 := calculateEMA prices 12 in
  let ema26 := calculateEMA prices 26 in
  let macdValues :=
    map (fun i => Js.get ema12 (i + (length ema12 - length ema26)) - Js.get ema26 i)
        (seq 0 (length ema26)) in
  let signalEMA := calculateEMA macdValues 9 in
  length ema12 = (length prices - 11)%nat /\
  length ema26 = (length prices - 25)%nat /\
  calculateMACD prices =
    mkMacd (Js.last_of macdValues)
           (if (0 <? length signalEMA)%nat then Js.last_of signalEMA else 0)
           (Js.last_of macdValues
            - (if (0 <? length signalEMA)%nat then Js.last_of signalEMA else 0)).
Proof.
  intros Hn ema12 ema26 macdValues signalEMA.
  assert (H12 : length ema12 = (length prices - 11)%nat).
  { subst ema12. rewrite calculateEMA_long_length by lia. lia. }
  assert (H26 : length ema26 = (length prices - 25)%nat).
  { subst ema26. rewrite calculateEMA_long_length by lia. lia. }
  split; [exact H12|]. split; [exact H26|].
  unfold calculateMACD. fold ema12 ema26.
  replace (length ema12 =? 0)%nat with false by (symmetry; apply Nat.eqb_neq; lia).
  replace (length ema26 =? 0)%nat with false by (symmetry; apply Nat.eqb_neq; lia).
  cbn [orb]. rewrite push_loop_map. cbn [app]. reflexivity.
Qed.

(** X6.  With 26 prices or more, the MACD line is the latest 12-period
    average minus the latest 26-period average and the histogram is the
    line minus the signal line; with fewer than 34 prices the MACD sequence
    is shorter than 9, and the signal line is the default 0. *)
Theorem calculateMACD_line (prices : list Q) :
  (26 <= length prices)%nat ->
  let m := calculateMACD prices in
  macdLine m = getLatestEMA prices 12 - getLatestEMA prices 26 /\
  histogram m = macdLine m - signalLine m /\
  ((length prices < 34)%nat -> signalLine m = 0 /\ histogram m = macdLine m - 0).
Proof.
  intros Hn m. subst m.
  destruct (calculateMACD_long prices Hn) as (H12 & H26 & Hm).
  rewrite Hm. cbn [macdLine signalLine histogram].
  split; [|split; [reflexivity|]].
  - rewrite last_of_tabulate by lia.
    unfold getLatestEMA.
    replace (0 <? length (calculateEMA prices 12))%nat with true
      by (symmetry; apply Nat.ltb_lt; lia).
    replace (0 <? length (calculateEMA prices 26))%nat with true
      by (symmetry; apply Nat.ltb_lt; lia).
    unfold Js.last_of. f_equal. f_equal. lia.
  - intro Hshort.
    rewrite calculateEMA_short by (rewrite length_map, length_seq; lia).
    cbn [length Nat.ltb Nat.leb]. split; reflexivity.
Qed.

Lemma calculateMACD_line_witness :
  let prices := map (fun n => inject_Z (Z.of_nat (n * n))) (seq 1 27) in
  let m := calculateMACD prices in
  macdLine m = getLatestEMA prices 12 - getLatestEMA prices 26 /\
  histogram m = macdLine m - signalLine m /\
  ((length prices < 34)%nat -> signalLine m = 0 /\ histogram m = macdLine m - 0).
Proof.
  apply (calculateMACD_line (map (fun n => inject_Z (Z.of_nat (n * n))) (seq 1 27))).
  cbn. lia.
Defined.

Lemma calculateMACD_histogram (prices : list Q) :
  histogram (calculateMACD prices) ==
  macdLine (calculateMACD prices) - signalLine (calculateMACD prices).
Proof.
  destruct (Nat.lt_ge_cases (length prices) 26) as [Hlt | Hge].
  - rewrite (calculateMACD_short prices Hlt). reflexivity.
  - destruct (calculateMACD_long prices Hge) as (_ & _ & Hm).
    rewrite Hm. cbn [macdLine signalLine histogram]. reflexivity.
Qed.

(** The MACD score when the histogram is the line minus the signal line. *)
Lemma scoreMACDMomentum_coherent (l s h : Q) :
  h == l - s ->
  let score := scoreMACDMomentum l s h in
  (l <= s -> score <= -9) /\ (s < l -> 9 <= score).
Proof.
  intros Hh score. subst score. unfold scoreMACDMomentum, Js.gtb.
  repeat split_cmp; cbn [andb]; split; intro; try discriminate; exfalso; lra.
Qed.

(** X7.  The MACD sub-score of the pipeline is never between -9 and 9: as
    the histogram is the line minus the signal line, the first two terms of
    [scoreMACDMomentum] always agree.  It is at most -9 when the line is not
    above the signal line (as in the all-zero default), at least 9 when it
    is. *)
Theorem macdScore_never_neutral (prices : list Q) :
  let m := calculateMACD prices in
  let score := scoreMACDMomentum (macdLine m) (signalLine m) (histogram m) in
  (macdLine m <= signalLine m /\ score <= -9) \/
  (signalLine m < macdLine m /\ 9 <= score).
Proof.
  intros m score.
  pose proof (scoreMACDMomentum_coherent _ _ _ (calculateMACD_histogram prices)) as [H1 H2].
  fold m in H1, H2. fold score in H1, H2.
  destruct (Qlt_le_dec (signalLine m) (macdLine m)) as [Hlt | Hle].
  - right. split; [exact Hlt | apply H2; exact Hlt].
  - left. split; [exact Hle | apply H1; exact Hle].
Qed.

(** X8.  With fewer than 26 prices the MACD is the all-zero default: the
    three MACD fields of the result are 0 and the MACD sub-score is -12, not
    0. *)
Theorem short_series_macd_default (tk : string) (prices : list Q) (d : string) :
  prices <> [] ->
  (length prices < 26)%nat ->
  exists (r : SignalResult) (ind : Indicators),
    generateSignals tk prices d = Some r /\
    computeIndicators prices = Some ind /\
    macd_line r == 0 /\ macd_signal r == 0 /\ macd_histogram r == 0 /\
    macdScore (computeScores ind) == -12.
Proof.
  intros Hp Hshort.
  destruct (computeIndicators_some prices Hp) as (fib & _ & Hind).
  unfold generateSignals. rewrite Hind.
  do 2 eexists. split; [reflexivity|]. split; [reflexivity|].
  cbn [macd_line macd_signal macd_histogram i_macd computeScores macdScore].
  rewrite (calculateMACD_short prices Hshort).
  cbn [macdLine signalLine histogram].
  repeat split; reflexivity.
Qed.

Lemma short_series_macd_default_witness :
  let prices := [5; 6; 7] in
  exists (r : SignalResult) (ind : Indicators),
    generateSignals "ACME" prices "2024-01-02" = Some r /\
    computeIndicators prices = Some ind /\
    macd_line r == 0 /\ macd_signal r == 0 /\ macd_histogram r == 0 /\
    macdScore (computeScores ind) == -12.
Proof.
  apply (short_series_macd_default "ACME" [5; 6; 7] "2024-01-02").
  - discriminate.
  - cbn. lia.
Defined.

(** ** RSI of monotone series *)

Lemma fold_left_invariant {A : Type} (P : A -> Prop) (R : nat -> Prop)
      (step : A -> nat -> A) (idx : list nat) (acc : A) :
  (forall a i, R i -> P a -> P (step a i)) ->
  Forall R idx -> P acc -> P (fold_left step idx acc).
Proof.
  intro Hstep. revert acc.
  induction idx as [|i idx IH]; intros acc Hidx Hacc; cbn [fold_left].
  - exact Hacc.
  - inversion Hidx; subst. apply IH; [assumption|]. apply Hstep; assumption.
Qed.

Lemma seq_in_range (a n b : nat) :
  (1 <= a)%nat -> (a + n <= b)%nat ->
  Forall (fun i => (1 <= i < b)%nat) (seq a n).
Proof.
  intros Ha Hb. apply Forall_forall. intros i Hi. apply in_seq in Hi. lia.
Qed.

Section MonotoneSeries.

Variable prices : list Q.
Variable period : nat.
Hypothesis period_pos : (1 <= period)%nat.
Hypothesis enough : (period + 1 <= length prices)%nat.

Let p : Q := inject_Z (Z.of_nat period).
Let inRange (i : nat) : Prop := (1 <= i < length prices)%nat.

Lemma period_ge_1 : 1 <= p.
Proof. apply inject_nat_ge_1. exact period_pos. Qed.

(** No loss is ever recorded on a series that never falls. *)
Lemma rising_no_loss :
  (forall i, inRange i -> Js.get prices (i - 1) <= Js.get prices i) ->
  snd (rsiAverages prices period) == 0.
Proof.
  intro Hup. pose proof period_ge_1 as Hp.
  assert (Hchange : forall i, inRange i -> 0 <= priceChange prices i).
  { intros i Hi. specialize (Hup i Hi). unfold priceChange. lra. }
  unfold rsiAverages, rsiSmoothed. fold p.
  apply (fold_left_invariant (fun acc => snd acc == 0) inRange).
  - intros a i Hi Ha. specialize (Hchange i Hi).
    unfold rsiSmoothStep; cbn [snd].
    replace (Js.ltb (priceChange prices i) 0) with false
      by (symmetry; apply ltb_false; exact Hchange).
    rewrite Ha. unfold Qdiv. ring.
  - apply seq_in_range; lia.
  - cbn [snd].
    assert (H0 : snd (fold_left (rsiInitStep prices) (seq 1 period) (0, 0)) == 0).
    { apply (fold_left_invariant (fun acc => snd acc == 0) inRange).
      - intros a i Hi Ha. specialize (Hchange i Hi).
        unfold rsiInitStep, Js.gtb. split_cmp; cbn [snd]; [exact Ha|].
        assert (Hz : priceChange prices i == 0) by lra.
        unfold Js.abs. rewrite Ha, Hz. reflexivity.
      - apply seq_in_range; lia.
      - reflexivity. }
    rewrite H0. unfold Qdiv. ring.
Qed.

(** On a series that falls at every step no gain is ever recorded, and the
    average loss is positive. *)
Lemma falling_no_gain :
  (forall i, inRange i -> Js.get prices i < Js.get prices (i - 1)) ->
  fst (rsiAverages prices period) == 0 /\ 0 < snd (rsiAverages prices period).
Proof.
  intro Hdown. pose proof period_ge_1 as Hp.
  assert (Hchange : forall i, inRange i -> priceChange prices i < 0).
  { intros i Hi. specialize (Hdown i Hi). unfold priceChange. lra. }
  assert (Habs : forall i, inRange i -> 0 < Js.abs (priceChange prices i)).
  { intros i Hi. specialize (Hchange i Hi). unfold Js.abs.
    rewrite Qabs_neg by lra. lra. }
  assert (Hinit : forall a i, inRange i -> fst a == 0 /\ 0 <= snd a ->
                    fst (rsiInitStep prices a i) == 0 /\ 0 < snd (rsiInitStep prices a i)).
  { intros a i Hi [Hg Hl]. specialize (Hchange i Hi). specialize (Habs i Hi).
    unfold rsiInitStep, Js.gtb. split_cmp; cbn [fst snd]; [exfalso; lra|].
    split; [exact Hg | lra]. }
  unfold rsiAverages, rsiSmoothed. fold p.
  apply (fold_left_invariant (fun acc => fst acc == 0 /\ 0 < snd acc) inRange).
  - intros a i Hi [Hg Hl]. specialize (Hchange i Hi). specialize (Habs i Hi).
    unfold rsiSmoothStep; cbn [fst snd].
    replace (Js.gtb (priceChange prices i) 0) with false
      by (symmetry; apply ltb_false; lra).
    replace (Js.ltb (priceChange prices i) 0) with true
      by (symmetry; apply ltb_true; exact Hchange).
    split.
    + rewrite Hg. unfold Qdiv. ring.
    + apply Qlt_shift_div_l; [lra|].
      assert (0 <= snd a * (p - 1)) by (apply Qmult_le_0_compat; lra).
      lra.
  - apply seq_in_range; lia.
  - assert (H0 : fst (fold_left (rsiInitStep prices) (seq 1 period) (0, 0)) == 0 /\
                 0 < snd (fold_left (rsiInitStep prices) (seq 1 period) (0, 0))).
    { destruct period as [|k]; [lia|]. cbn [seq fold_left].
      apply (fold_left_invariant (fun acc => fst acc == 0 /\ 0 < snd acc) inRange).
      - intros a i Hi [Hg Hl]. apply Hinit; [exact Hi|]. split; [exact Hg | lra].
      - apply seq_in_range; lia.
      - apply Hinit; [unfold inRange; lia|]. cbn. split; [reflexivity | discriminate]. }
    destruct H0 as [Hg Hl]. cbn [fst snd]. split.
    + rewrite Hg. unfold Qdiv. ring.
    + apply Qlt_shift_div_l; lra.
Qed.

End MonotoneSeries.

(** X9.  For a period of at least 1 and a series of more than [period]
    prices that never falls from one day to the next (a flat series
    included), [calculateRSI] returns exactly 100. *)
Theorem calculateRSI_never_falling (prices : list Q) (period : nat) :
  (1 <= period)%nat ->
  (period + 1 <= length prices)%nat ->
  (forall i, (1 <= i < length prices)%nat -> Js.get prices (i - 1) <= Js.get prices i) ->
  calculateRSI prices period = 100.
Proof.
  intros Hp Hn Hup.
  pose proof (rising_no_loss prices period Hp Hn Hup) as Hl.
  unfold calculateRSI.
  replace (length prices <? period + 1)%nat with false
    by (symmetry; apply Nat.ltb_ge; lia).
  cbv zeta. apply eqb_true in Hl. rewrite Hl. reflexivity.
Qed.

Lemma calculateRSI_never_falling_witness :
  calculateRSI [5; 5; 6; 8] 2 = 100.
Proof.
  apply (calculateRSI_never_falling [5; 5; 6; 8] 2).
  - lia.
  - cbn. lia.
  - intros i Hi. cbn in Hi.
    do 4 (destruct i as [|i]; [try lia; cbn; discriminate|]). lia.
Defined.

(** X10.  For a period of at least 1 and a series of more than [period]
    prices that falls at every step, [calculateRSI] returns 0. *)
Theorem calculateRSI_always_falling (prices : list Q) (period : nat) :
  (1 <= period)%nat ->
  (period + 1 <= length prices)%nat ->
  (forall i, (1 <= i < length prices)%nat -> Js.get prices i < Js.get prices (i - 1)) ->
  calculateRSI prices period == 0.
Proof.
  intros Hp Hn Hdown.
  pose proof (falling_no_gain prices period Hp Hn Hdown) as [Hg Hl].
  unfold calculateRSI.
  replace (length prices <? period + 1)%nat with false
    by (symmetry; apply Nat.ltb_ge; lia).
  cbv zeta.
  replace (Js.eqb (snd (rsiAverages prices period)) 0) with false
    by (symmetry; apply eqb_false; lra).
  rewrite Hg. unfold Qdiv. rewrite Qmult_0_l.
  reflexivity.
Qed.

Lemma calculateRSI_always_falling_witness :
  calculateRSI [9; 7; 6; 2] 2 == 0.
Proof.
  apply (calculateRSI_always_falling [9; 7; 6; 2] 2).
  - lia.
  - cbn. lia.
  - intros i Hi. cbn in Hi.
    do 4 (destruct i as [|i]; [try lia; cbn; reflexivity|]). lia.
Defined.

(** ** A flat series *)

(** Decide a comparison of the goal from the hypotheses. *)
Ltac decide_cmp :=
  repeat match goal with
  | |- context [Js.ltb ?x ?y] =>
      first [ replace (Js.ltb x y) with false by (symmetry; apply ltb_false; lra)
            | replace (Js.ltb x y) with true by (symmetry; apply ltb_true; lra) ]
  | |- context [Js.leb ?x ?y] =>
      first [ replace (Js.leb x y) with false by (symmetry; apply leb_false; lra)
            | replace (Js.leb x y) with true by (symmetry; apply leb_true; lra) ]
  | |- context [Js.eqb ?x ?y] =>
      first [ replace (Js.eqb x y) with false by (symmetry; apply eqb_false; lra)
            | replace (Js.eqb x y) with true by (symmetry; apply eqb_true; lra) ]
  end.













(** ** The lookback window *)

Lemma slice_tail_skipn {A : Type} (l : list A) (k : Z) :
  (0 < k)%Z -> Js.slice l (- k) = skipn (length l - Z.to_nat k) l.
Proof.
  intro Hk. unfold Js.slice.
  replace (- k <? 0)%Z with true by (symmetry; apply Z.ltb_lt; lia).
  f_equal. lia.
Qed.

(** X12.  For a lookback of at least 1 and a non-empty series, the window of
    [calculateFibLevels] is made of the last [lookback] prices (all of them
    when there are fewer); [high] and [low] are prices of that window and
    every price of the window lies between them, whatever the older prices
    are. *)
Theorem calculateFibLevels_extrema (prices : list Q) (lookback : Z) :
  (1 <= lookback)%Z ->
  prices <> [] ->
  exists fib : FibLevels,
    calculateFibLevels prices lookback = Some fib /\
    let window := skipn (length prices - Z.to_nat lookback) prices in
    length window = Nat.min (Z.to_nat lookback) (length prices) /\
    In (high fib) window /\ In (low fib) window /\
    Forall (fun p => low fib <= p <= high fib) window.
Proof.
  intros Hk Hp.
  assert (Hw : Js.slice prices (- lookback) <> [])
    by (apply slice_tail_nonempty; [lia | exact Hp]).
  destruct (calculateFibLevels_some prices lookback Hw) as (hi & lo & Hhi & Hlo & Hf).
  eexists. split; [exact Hf|].
  cbn [high low]. rewrite <- slice_tail_skipn by lia.
  split; [apply slice_tail_length; lia|].
  split; [apply max_of_in; exact Hhi|].
  split; [apply min_of_in; exact Hlo|].
  apply Forall_forall. intros x Hx. split.
  - apply (min_of_le _ _ _ Hlo Hx).
  - apply (max_of_ge _ _ _ Hhi Hx).
Qed.

Lemma calculateFibLevels_extrema_witness :
  let prices := [90; 1; 5; 3; 4] in
  exists fib : FibLevels,
    calculateFibLevels prices 3 = Some fib /\
    let window := skipn (length prices - Z.to_nat 3) prices in
    length window = Nat.min (Z.to_nat 3) (length prices) /\
    In (high fib) window /\ In (low fib) window /\
    Forall (fun p => low fib <= p <= high fib) window.
Proof.
  apply (calculateFibLevels_extrema [90; 1; 5; 3; 4] 3); [lia | discriminate].
Defined.

(** X13.  A lookback of 0 does not give an empty window: [slice(-0)] is
    [slice(0)], so the levels are those of the whole series, as for any
    lookback that reaches the length of the series. *)
Theorem calculateFibLevels_whole_series (prices : list Q) (lookback : Z) :
  lookback = 0%Z \/ (Z.of_nat (length prices) <= lookback)%Z ->
  Js.slice prices (- lookback) = prices /\
  calculateFibLevels prices lookback =
    calculateFibLevels prices (Z.of_nat (length prices)).
Proof.
  intro H.
  assert (Hall : forall k, k = 0%Z \/ (Z.of_nat (length prices) <= k)%Z ->
                           Js.slice prices (- k) = prices).
  { intros k Hk. unfold Js.slice.
    destruct (- k <? 0)%Z eqn:E.
    - apply Z.ltb_lt in E.
      replace (Z.to_nat (Z.max (Z.of_nat (length prices) + - k) 0)) with 0%nat by lia.
      reflexivity.
    - apply Z.ltb_ge in E.
      replace (Z.to_nat (Z.min (- k) (Z.of_nat (length prices)))) with 0%nat by lia.
      reflexivity. }
  split; [apply Hall; exact H|].
  unfold calculateFibLevels.
  rewrite (Hall lookback H), (Hall (Z.of_nat (length prices))) by lia.
  reflexivity.
Qed.

Lemma calculateFibLevels_whole_series_witness :
  Js.slice [4; 9; 6] (- 0) = [4; 9; 6] /\
  calculateFibLevels [4; 9; 6] 0 = calculateFibLevels [4; 9; 6] (Z.of_nat (length [4; 9; 6])).
Proof.
  apply (calculateFibLevels_whole_series [4; 9; 6] 0). left. reflexivity.
Defined.

(** ** The retracement-position score *)

(** The score as a function of the position in the window. *)
Lemma scoreFibPosition_by_position (price : Q) (fib : FibLevels) (pos : Q) :
  ~ high fib - low fib == 0 ->
  (price - low fib) / (high fib - low fib) == pos ->
  scoreFibPosition price fib = scoreFibPosition pos (mkFibLevels 1 0 0 0 0 0 0).
Proof.
  intros Hr Hpos. unfold scoreFibPosition. cbn [high low].
  apply eqb_false in Hr. rewrite Hr.
  replace (Js.eqb (1 - 0) 0) with false by reflexivity.
  assert (Hunit : (pos - 0) / (1 - 0) == pos) by field.
  unfold Js.geb, Js.gtb, Js.ltb, Js.leb.
  revert Hpos Hunit.
  generalize ((price - low fib) / (high fib - low fib)) as a.
  generalize ((pos - 0) / (1 - 0)) as b.
  intros b a Ha Hb.
  assert (L1 : forall c, Qle_bool a c = Qle_bool b c)
    by (intro c; rewrite Ha, Hb; reflexivity).
  assert (L2 : forall c, Qle_bool c a = Qle_bool c b)
    by (intro c; rewrite Ha, Hb; reflexivity).
  rewrite !L1, !L2. reflexivity.
Qed.

(** X14.  On a window that is not flat, [scoreFibPosition] gives 25 above
    the high and -25 below the low, and at the seven levels themselves: 5 at
    the high, 15 at [level_236], 20 at [level_382], 0 at [level_500], 10 at
    [level_618], -15 at [level_786] and -15 at the low. *)
Theorem scoreFibPosition_at_levels (prices : list Q) (lookback : Z) (fib : FibLevels) :
  calculateFibLevels prices lookback = Some fib ->
  low fib < high fib ->
  (forall price, high fib < price -> scoreFibPosition price fib = 25) /\
  (forall price, price < low fib -> scoreFibPosition price fib = -25) /\
  scoreFibPosition (high fib) fib = 5 /\
  scoreFibPosition (level_236 fib) fib = 15 /\
  scoreFibPosition (level_382 fib) fib = 20 /\
  scoreFibPosition (level_500 fib) fib = 0 /\
  scoreFibPosition (level_618 fib) fib = 10 /\
  scoreFibPosition (level_786 fib) fib = -15 /\
  scoreFibPosition (low fib) fib = -15.
Proof.
  intros Hf Hlt. unfold calculateFibLevels in Hf.
  destruct (Js.max_of _) as [hi|]; [|discriminate].
  destruct (Js.min_of _) as [lo|]; [|discriminate].
  injection Hf as <-. cbn [high low level_236 level_382 level_500 level_618 level_786] in *.
  assert (Hr : ~ hi - lo == 0) by lra.
  set (fib := mkFibLevels _ _ _ _ _ _ _).
  assert (Hat : forall price pos, (price - lo) / (hi - lo) == pos ->
                  scoreFibPosition price fib =
                  scoreFibPosition pos (mkFibLevels 1 0 0 0 0 0 0)).
  { intros price pos Hpos. apply (scoreFibPosition_by_position price fib pos Hr Hpos). }
  split; [|split].
  - intros price Hprice. rewrite (Hat price _ (Qeq_refl _)).
    assert (Hpos : 1 < (price - lo) / (hi - lo)) by (apply Qlt_shift_div_l; lra).
    revert Hpos. generalize ((price - lo) / (hi - lo)) as a. intros a Ha.
    unfold scoreFibPosition. cbn [high low].
    replace (Js.eqb (1 - 0) 0) with false by reflexivity.
    assert (Hunit : (a - 0) / (1 - 0) == a) by field.
    revert Hunit. generalize ((a - 0) / (1 - 0)) as b. intros b Hb.
    unfold Js.geb, Js.gtb. decide_cmp. reflexivity.
  - intros price Hprice. rewrite (Hat price _ (Qeq_refl _)).
    assert (Hpos : (price - lo) / (hi - lo) < 0) by (apply Qlt_shift_div_r; lra).
    revert Hpos. generalize ((price - lo) / (hi - lo)) as a. intros a Ha.
    unfold scoreFibPosition. cbn [high low].
    replace (Js.eqb (1 - 0) 0) with false by reflexivity.
    assert (Hunit : (a - 0) / (1 - 0) == a) by field.
    revert Hunit. generalize ((a - 0) / (1 - 0)) as b. intros b Hb.
    unfold Js.geb, Js.gtb. decide_cmp. reflexivity.
  - repeat split.
    + rewrite (Hat hi 1) by (field; exact Hr). reflexivity.
    + rewrite (Hat _ 0.764) by (field; exact Hr). reflexivity.
    + rewrite (Hat _ 0.618) by (field; exact Hr). reflexivity.
    + rewrite (Hat _ 0.5) by (field; exact Hr). reflexivity.
    + rewrite (Hat _ 0.382) by (field; exact Hr). reflexivity.
    + rewrite (Hat _ 0.214) by (field; exact Hr). reflexivity.
    + rewrite (Hat lo 0) by (field; exact Hr). reflexivity.
Qed.

Lemma scoreFibPosition_at_levels_witness :
  let fib := mkFibLevels 100 50 (100 - (100 - 50) * 0.236) (100 - (100 - 50) * 0.382)
                         (100 - (100 - 50) * 0.5) (100 - (100 - 50) * 0.618)
                         (100 - (100 - 50) * 0.786) in
  (forall price, high fib < price -> scoreFibPosition price fib = 25) /\
  (forall price, price < low fib -> scoreFibPosition price fib = -25) /\
  scoreFibPosition (high fib) fib = 5 /\
  scoreFibPosition (level_236 fib) fib = 15 /\
  scoreFibPosition (level_382 fib) fib = 20 /\
  scoreFibPosition (level_500 fib) fib = 0 /\
  scoreFibPosition (level_618 fib) fib = 10 /\
  scoreFibPosition (level_786 fib) fib = -15 /\
  scoreFibPosition (low fib) fib = -15.
Proof.
  intro fib. apply (scoreFibPosition_at_levels [100; 50] 60 fib); reflexivity.
Defined.

(** ** The alignment score *)

(** X15.  [scoreEMAAlignment] reaches its bounds: a price above the four
    averages that are themselves in bullish order (9 > 21 > 50 > 200) scores
    20, a price below the four averages in bearish order scores -20. *)
Theorem scoreEMAAlignment_extremes (price e9 e21 e50 e200 : Q) :
  (e9 < price -> e200 < e50 -> e50 < e21 -> e21 < e9 ->
   scoreEMAAlignment price e9 e21 e50 e200 == 20) /\
  (price < e9 -> e9 < e21 -> e21 < e50 -> e50 < e200 ->
   scoreEMAAlignment price e9 e21 e50 e200 == -20).
Proof.
  split; intros H1 H2 H3 H4; unfold scoreEMAAlignment, Js.gtb; cbv zeta;
    decide_cmp; reflexivity.
Qed.

Lemma scoreEMAAlignment_extremes_witness :
  scoreEMAAlignment 10 9 8 7 6 == 20 /\ scoreEMAAlignment 5 6 7 8 9 == -20.
Proof.
  split.
  - apply (proj1 (scoreEMAAlignment_extremes 10 9 8 7 6)); reflexivity.
  - apply (proj2 (scoreEMAAlignment_extremes 5 6 7 8 9)); reflexivity.
Defined.

(** ** Rounding of the reported values *)

Lemma Qfloor_half (k : Z) : Qfloor (inject_Z k + (1 # 2)) = k.
Proof.
  pose proof (Qfloor_le (inject_Z k + (1 # 2))) as H1.
  pose proof (Qlt_floor (inject_Z k + (1 # 2))) as H2.
  set (f := Qfloor (inject_Z k + (1 # 2))) in *.
  assert (Hle : (f <= k)%Z).
  { destruct (Z.le_gt_cases f k) as [H|H]; [exact H|]. exfalso.
    assert (Hq : inject_Z (k + 1) <= inject_Z f) by (rewrite <- Zle_Qle; lia).
    rewrite inject_Z_plus in Hq. change (inject_Z 1) with 1 in Hq. lra. }
  assert (Hge : (k <= f)%Z).
  { destruct (Z.le_gt_cases k f) as [H|H]; [exact H|]. exfalso.
    assert (Hq : inject_Z (f + 1) <= inject_Z k) by (rewrite <- Zle_Qle; lia).
    lra. }
  lia.
Qed.

Lemma round_of_int (k : Z) : Js.round (inject_Z k) = inject_Z k.
Proof. unfold Js.round. rewrite Qfloor_half. reflexivity. Qed.

Lemma round_monotone (x y : Q) : x <= y -> Js.round x <= Js.round y.
Proof.
  intro H. unfold Js.round. rewrite <- Zle_Qle.
  apply Qfloor_resp_le. lra.
Qed.

(** X16.  The rounding applied to the reported fields keeps the order of
    the values and is stable: rounding a value that is already rounded
    changes nothing.  This holds for the 2-decimal and for the 4-decimal
    rounding. *)
Theorem rounding_monotone_idempotent (x y : Q) :
  (x <= y -> round2 x <= round2 y /\ round4 x <= round4 y) /\
  round2 (round2 x) == round2 x /\
  round4 (round4 x) == round4 x.
Proof.
  split; [|split].
  - intro H. unfold round2, round4. split.
    + apply Qle_shift_div_l; [reflexivity|].
      setoid_replace (Js.round (x * 100) / 100 * 100) with (Js.round (x * 100)) by field.
      apply round_monotone. lra.
    + apply Qle_shift_div_l; [reflexivity|].
      setoid_replace (Js.round (x * 10000) / 10000 * 10000)
        with (Js.round (x * 10000)) by field.
      apply round_monotone. lra.
  - unfold round2 at 1.
    assert (E : round2 x * 100 == inject_Z (Qfloor (x * 100 + (1 # 2))))
      by (unfold round2, Js.round; field).
    unfold Js.round at 1. rewrite E, Qfloor_half. reflexivity.
  - unfold round4 at 1.
    assert (E : round4 x * 10000 == inject_Z (Qfloor (x * 10000 + (1 # 2))))
      by (unfold round4, Js.round; field).
    unfold Js.round at 1. rewrite E, Qfloor_half. reflexivity.
Qed.

Lemma rounding_monotone_idempotent_witness :
  1.234 <= 1.2351 /\
  round2 1.234 <= round2 1.2351 /\ round4 1.234 <= round4 1.2351.
Proof.
  split; [discriminate|].
  apply (proj1 (rounding_monotone_idempotent 1.234 1.2351)). discriminate.
Defined.

(** * Price service and CSV import *)

(** ** From the price service to the engine *)

Lemma last_of_map_close (prices : list PriceService.PriceData) :
  prices <> [] ->
  option_map PriceService.close (nth_error prices (length prices - 1)) =
  Some (Js.last_of (PriceService.extractClosePrices prices)).
Proof.
  intro Hp. unfold Js.last_of, Js.get, PriceService.extractClosePrices.
  rewrite length_map.
  destruct (nth_error prices (length prices - 1)) as [p|] eqn:E.
  - cbn [option_map]. f_equal. symmetry.
    apply nth_error_nth. rewrite nth_error_map, E. reflexivity.
  - apply nth_error_None in E. destruct prices; [congruence | cbn in E; lia].
Qed.

(** X17.  [getLatestClose] answers [null] exactly on the empty array.  On a
    non-empty array, which is what the nightly job passes on, its answer is
    the last element of [extractClosePrices], the current price of the
    engine; [generateSignals] then returns a result, and that price lies
    between the low and the high of the result's retracement levels. *)
Theorem latest_close_is_current_price
        (tk : string) (prices : list PriceService.PriceData) (d : string) :
  (PriceService.getLatestClose prices = None <-> prices = []) /\
  length (PriceService.extractClosePrices prices) = length prices /\
  (prices <> [] ->
   exists (latest : Q) (r : SignalResult),
     PriceService.getLatestClose prices = Some latest /\
     latest = Js.last_of (PriceService.extractClosePrices prices) /\
     generateSignals tk (PriceService.extractClosePrices prices) d = Some r /\
     low (fib_levels r) <= latest <= high (fib_levels r)).
Proof.
  split; [|split].
  - unfold PriceService.getLatestClose. destruct prices as [|p ps].
    + split; reflexivity.
    + split; [|discriminate]. cbn [length Nat.eqb].
      rewrite last_of_map_close by discriminate. discriminate.
  - apply length_map.
  - intro Hp.
    set (closes := PriceService.extractClosePrices prices).
    assert (Hc : closes <> []).
    { intro E. apply (f_equal (@length Q)) in E.
      unfold closes, PriceService.extractClosePrices in E. rewrite length_map in E.
      destruct prices; [congruence | discriminate]. }
    assert (Hw : Js.slice closes (- (60)) <> [])
      by (apply (slice_tail_nonempty closes 60); [lia | exact Hc]).
    destruct (calculateFibLevels_some closes 60 Hw) as (hi & lo & Hhi & Hlo & Hf).
    destruct (computeIndicators_some closes Hc) as (fib & Hf' & Hind).
    rewrite Hf in Hf'. injection Hf' as <-.
    exists (Js.last_of closes). eexists.
    split; [|split; [reflexivity|split]].
    + unfold PriceService.getLatestClose.
      replace (length prices =? 0)%nat with false
        by (symmetry; apply Nat.eqb_neq; destruct prices; [congruence | discriminate]).
      apply last_of_map_close. exact Hp.
    + unfold generateSignals. rewrite Hind. reflexivity.
    + cbn [fib_levels i_fib high low].
      assert (Hin : In (Js.last_of closes) (Js.slice closes (- (60))))
        by (apply (last_in_slice closes 60); [lia | exact Hc]).
      split; [apply (min_of_le _ _ _ Hlo Hin) | apply (max_of_ge _ _ _ Hhi Hin)].
Qed.

Lemma latest_close_is_current_price_witness :
  let prices := [PriceService.mkPriceData "ACME" "2024-01-01" 10 12 9 11 1000;
                 PriceService.mkPriceData "ACME" "2024-01-02" 11 13 10 12 1500] in
  prices <> [] /\
  exists (latest : Q) (r : SignalResult),
    PriceService.getLatestClose prices = Some latest /\
    latest = Js.last_of (PriceService.extractClosePrices prices) /\
    generateSignals "ACME" (PriceService.extractClosePrices prices) "2024-01-03" = Some r /\
    low (fib_levels r) <= latest <= high (fib_levels r).
Proof.
  intro prices. split; [discriminate|].
  apply (proj2 (proj2 (latest_close_is_current_price "ACME" prices "2024-01-03"))).
  discriminate.
Defined.

(** ** Detection of the brokerage format *)

Lemma includes_In (l : list string) (x : string) :
  CsvImport.includes l x = true <-> In x l.
Proof.
  unfold CsvImport.includes. rewrite existsb_exists. split.
  - intros (y & Hy & E). apply String.eqb_eq in E. subst y. exact Hy.
  - intro H. exists x. split; [exact H | apply String.eqb_refl].
Qed.

Lemma includes_same (l1 l2 : list string) (x : string) :
  (In x l1 <-> In x l2) -> CsvImport.includes l1 x = CsvImport.includes l2 x.
Proof.
  intro H.
  destruct (CsvImport.includes l1 x) eqn:E1, (CsvImport.includes l2 x) eqn:E2;
    try reflexivity.
  - apply includes_In, H, includes_In in E1. congruence.
  - apply includes_In, H, includes_In in E2. congruence.
Qed.

(** X18.  [detectBrokerageFormat] depends only on which of the seven marker
    names occur among the normalised headers: two header rows that agree on
    those give the same format, whatever the order, the repetitions, the
    letter case, the surrounding white space or the other columns. *)
Theorem detectBrokerageFormat_by_markers (headers1 headers2 : list string) :
  (forall m, In m CsvImport.markers ->
             (In m (map CsvImport.normalizeHeader headers1) <->
              In m (map CsvImport.normalizeHeader headers2))) ->
  CsvImport.detectBrokerageFormat headers1 = CsvImport.detectBrokerageFormat headers2.
Proof.
  intro H. unfold CsvImport.detectBrokerageFormat. cbv zeta.
  rewrite !(includes_same (map CsvImport.normalizeHeader headers1)
                          (map CsvImport.normalizeHeader headers2))
    by (apply H; cbn; tauto).
  reflexivity.
Qed.

Lemma detectBrokerageFormat_by_markers_witness :
  CsvImport.detectBrokerageFormat ["Date"; " fees & COMM "; "Symbol"]%string =
  CsvImport.detectBrokerageFormat ["Fees & Comm"; "Amount"; "Fees & Comm"]%string.
Proof.
  apply (detectBrokerageFormat_by_markers
           ["Date"; " fees & COMM "; "Symbol"]%string
           ["Fees & Comm"; "Amount"; "Fees & Comm"]%string).
  intros m Hm. cbn in Hm.
  repeat (destruct Hm as [<- | Hm];
          [vm_compute; split; intro H; repeat (destruct H as [H | H]; try discriminate H);
           tauto |]).
  destruct Hm.
Defined.

Lemma includes_not_In (l : list string) (x : string) :
  CsvImport.includes l x = false <-> ~ In x l.
Proof.
  rewrite <- includes_In. destruct (CsvImport.includes l x); split; congruence.
Qed.

Lemma markers_absent (has : string -> Prop) :
  (forall m, In m CsvImport.markers -> ~ has m) <->
  (~ has "fees & comm"%string /\ ~ has "fees & commissions"%string /\
   ~ has "run date"%string /\ ~ has "price ($)"%string /\
   ~ has "activity date"%string /\ ~ has "trans code"%string /\
   ~ has "instrument"%string).
Proof.
  unfold CsvImport.markers. split.
  - intro H. repeat split; apply H; cbn; tauto.
  - intros (H1 & H2 & H3 & H4 & H5 & H6 & H7) m Hm. cbn in Hm.
    repeat (destruct Hm as [<- | Hm]; [assumption|]). destruct Hm.
Qed.

(** X19.  The answer of [detectBrokerageFormat] is never [alightfs], and it
    is [unknown] exactly when none of the seven marker names occurs among
    the normalised headers; it is [schwab] exactly when a Schwab marker
    occurs, whatever else does, and [fidelity] exactly when a Fidelity marker
    occurs and no Schwab marker does. *)
Theorem detectBrokerageFormat_cases (headers : list string) :
  let normalized := map CsvImport.normalizeHeader headers in
  let has := fun m : string => In m normalized in
  CsvImport.detectBrokerageFormat headers <> CsvImport.alightfs /\
  (CsvImport.detectBrokerageFormat headers = CsvImport.unknown <->
   forall m, In m CsvImport.markers -> ~ has m) /\
  (CsvImport.detectBrokerageFormat headers = CsvImport.schwab <->
   has "fees & comm"%string \/ has "fees & commissions"%string) /\
  (CsvImport.detectBrokerageFormat headers = CsvImport.fidelity <->
   ~ (has "fees & comm"%string \/ has "fees & commissions"%string) /\
   (has "run date"%string \/ has "price ($)"%string)).
Proof.
  intros normalized has. rewrite (markers_absent has).
  unfold CsvImport.detectBrokerageFormat. fold normalized. subst has. cbv beta.
  repeat match goal with
  | |- context [CsvImport.includes normalized ?m] =>
      let E := fresh "E" in
      destruct (CsvImport.includes normalized m) eqn:E;
      [apply includes_In in E | apply includes_not_In in E]
  end; cbn [orb]; intuition congruence.
Qed.

(** The header rows that the source documents for the three brokerages are
    detected as documented. *)
Example detect_documented_headers :
  CsvImport.detectBrokerageFormat
    ["Date"; "Action"; "Symbol"; "Description"; "Quantity"; "Price";
     "Fees & Comm"; "Amount"]%string = CsvImport.schwab /\
  CsvImport.detectBrokerageFormat
    ["Run Date"; "Action"; "Symbol"; "Description"; "Type"; "Quantity";
     "Price ($)"; "Amount ($)"]%string = CsvImport.fidelity /\
  CsvImport.detectBrokerageFormat
    ["Activity Date"; "Process Date"; "Settle Date"; "Instrument"; "Trans Code";
     "Quantity"; "Price"; "Amount"]%string = CsvImport.robinhood /\
  CsvImport.detectBrokerageFormat ["Date"; "Ticker"; "Shares"]%string = CsvImport.unknown.
Proof. repeat split; vm_compute; reflexivity. Qed.

(** * The proximity score and short series *)

(** X20.  [scoreSRProximity] only takes the values -12, -6, 0, 6 and 12, so
    its clamp to [[-15, 15]] never acts; and a support or a resistance of 0
    counts as an absent one. *)
Theorem scoreSRProximity_values (price : Q) (s r : option Q) :
  (exists k : Z, In k [-12; -6; 0; 6; 12]%Z /\ scoreSRProximity price s r == inject_Z k) /\
  scoreSRProximity price (Some 0) r == scoreSRProximity price None r /\
  scoreSRProximity price s (Some 0) == scoreSRProximity price s None.
Proof.
  split; [|split].
  - unfold scoreSRProximity. cbv zeta.
    destruct s as [s|], r as [r|];
      repeat match goal with
      | |- context [Js.truthy ?v] => destruct (Js.truthy v)
      | |- context [Js.quot_leb ?a ?b ?c] => destruct (Js.quot_leb a b c)
      end; cbn [negb andb];
      first [ exists (-12)%Z; split; [cbn; tauto | reflexivity]
            | exists (-6)%Z; split; [cbn; tauto | reflexivity]
            | exists 0%Z; split; [cbn; tauto | reflexivity]
            | exists 6%Z; split; [cbn; tauto | reflexivity]
            | exists 12%Z; split; [cbn; tauto | reflexivity] ].
  - unfold scoreSRProximity. cbn [Js.truthy]. 
    replace (Js.eqb 0 0) with true by reflexivity. cbn [negb]. reflexivity.
  - unfold scoreSRProximity. cbn [Js.truthy].
    replace (Js.eqb 0 0) with true by reflexivity. cbn [negb].
    destruct s as [s|]; reflexivity.
Qed.

Lemma scoreSRProximity_le_12 (price : Q) (s r : option Q) :
  scoreSRProximity price s r <= 12.
Proof.
  unfold scoreSRProximity. cbv zeta.
  destruct s as [s|], r as [r|];
    repeat match goal with
    | |- context [Js.truthy ?v] => destruct (Js.truthy v)
    | |- context [Js.quot_leb ?a ?b ?c] => destruct (Js.quot_leb a b c)
    end; cbn [negb andb]; discriminate.
Qed.

Lemma labelFromScore_strong_buy (x : Q) : labelFromScore x = strong_buy -> 50 <= x.
Proof.
  unfold labelFromScore, Js.geb. repeat split_cmp; intro H; try discriminate H. exact E.
Qed.

(** X21.  With fewer than 15 prices the RSI is the neutral 50 and the MACD
    is the all-zero default, which weighs -12: the score is at most 45 and
    the label is never strong_buy. *)
Theorem short_series_never_strong_buy (tk : string) (prices : list Q) (d : string) :
  prices <> [] ->
  (length prices < 15)%nat ->
  exists r : SignalResult,
    generateSignals tk prices d = Some r /\
    rsi_14 r == 50 /\
    signal_score r <= 45 /\
    signal_label r <> strong_buy.
Proof.
  intros Hp Hshort.
  destruct (computeIndicators_some prices Hp) as (fib & _ & Hind).
  unfold generateSignals. rewrite Hind.
  eexists. split; [reflexivity|].
  cbn [rsi_14 signal_score signal_label i_rsi].
  assert (Hrsi : calculateRSI prices 14 = 50).
  { unfold calculateRSI.
    replace (length prices <? 14 + 1)%nat with true by (symmetry; apply Nat.ltb_lt; lia).
    reflexivity. }
  rewrite Hrsi. split; [reflexivity|].
  match goal with |- clampScore ?t <= 45 /\ _ => set (total := t) end.
  assert (Ht : total <= 45).
  { subst total. unfold totalScore, computeScores.
    cbn [fibScore rsiScore emaScore srScore macdScore
         i_currentPrice i_fib i_nearest i_rsi i_ema9 i_ema21 i_ema50 i_ema200 i_macd].
    rewrite (calculateMACD_short prices) by lia.
    cbn [macdLine signalLine histogram].
    pose proof (scoreFibPosition_bounds (Js.last_of prices) fib) as [_ H1].
    pose proof (scoreEMAAlignment_bounds (Js.last_of prices) (getLatestEMA prices 9)
                  (getLatestEMA prices 21) (getLatestEMA prices 50)
                  (getLatestEMA prices 200)) as [_ H2].
    pose proof (scoreSRProximity_le_12 (Js.last_of prices)
                  (support (findNearestFibLevels (Js.last_of prices) fib))
                  (resistance (findNearestFibLevels (Js.last_of prices) fib))) as H3.
    assert (H4 : scoreRSI 50 == 0) by reflexivity.
    assert (H5 : scoreMACDMomentum 0 0 0 == -12) by reflexivity.
    lra. }
  assert (Hc : clampScore total <= 45).
  { unfold clampScore. apply Q.max_lub; [discriminate|].
    apply Qle_trans with total; [apply Q.le_min_r | exact Ht]. }
  split; [exact Hc|].
  intro Hl. apply labelFromScore_strong_buy in Hl. lra.
Qed.

Lemma short_series_never_strong_buy_witness :
  exists r : SignalResult,
    generateSignals "ACME" [10; 11; 13] "2024-01-02" = Some r /\
    rsi_14 r == 50 /\
    signal_score r <= 45 /\
    signal_label r <> strong_buy.
Proof.
  apply (short_series_never_strong_buy "ACME" [10; 11; 13] "2024-01-02").
  - discriminate.
  - cbn. lia.
Defined.
